(** * QiILS: the AKMaxSAT driver script [python_solvers/akmax_solver.py]

    A shallow embedding of the two functions of the script, [load_graph]
    and [run_solver], together with the parts of the Python run time and
    of networkx that they call:

    - [Py]: the builtins [str.strip], [str.split], [int], [float], [sum]
      on text and IEEE binary64 numbers (Rocq's primitive floats);
    - [Nx]: [networkx.Graph] as the insertion-ordered dict of dicts it is,
      with [add_edge] and the iteration of [G.edges(data=True)];
    - [Script]: [load_graph] and [run_solver] in an error-and-state monad
      over the files written, the directories made and the lines printed.

    The external solver ([AKMaxSATSolver.sample] followed by
    [SampleSet.data]) and the input files are parameters of [run_solver],
    and so is the summation [sum] performs, which changed with
    CPython 3.12.  The facts follow in [PyFacts], [NxFacts] and
    [ScriptFacts], and the properties of the specification close the
    file.

    A character is one of the 256 code points U+0000 to U+00FF that a
    [string] holds, and [int] refuses more digits than the interpreter
    allows by default (4300).  Outside the model: characters beyond
    U+00FF; dimod, whose model of the graph is left to the solver; failures
    of the operating system other than a missing input file. *)

From Stdlib Require Import ZArith List String Ascii Bool Lia Floats Permutation.
From Stdlib Require Import DecimalString.
Import ListNotations.

Local Open Scope Z_scope.
Local Open Scope list_scope.

(* ================================================================== *)
(** * Python builtins *)
(* ================================================================== *)

Module Py.

(** Text is a list of characters, each a code point below 256; a
    [string] literal is converted at the border. *)
Definition text := list ascii.

Definition of_string (s : string) : text := list_ascii_of_string s.
Definition to_string (t : text) : string := string_of_list_ascii t.

(** [str.isspace] of one character: TAB, LF, VT, FF, CR, the separators
    28..31, the blank, NEL (U+0085) and the no-break space (U+00A0). *)
Definition is_space (c : ascii) : bool :=
  let n := Z.of_nat (nat_of_ascii c) in
  ((9 <=? n) && (n <=? 13)) || ((28 <=? n) && (n <=? 32))
  || (n =? 133) || (n =? 160).

Fixpoint lstrip (t : text) : text :=
  match t with
  | c :: r => if is_space c then lstrip r else t
  | [] => []
  end.

Definition rstrip (t : text) : text := rev (lstrip (rev t)).

(** [s.strip()] *)
Definition strip (t : text) : text := rstrip (lstrip t).

(** [s.split(sep)] for a one-character separator: never empty, one more
    field than there are separators. *)
Fixpoint split (sep : ascii) (t : text) : list text :=
  match t with
  | [] => [[]]
  | c :: r =>
      if Ascii.eqb c sep then [] :: split sep r
      else match split sep r with
           | f :: fs => (c :: f) :: fs
           | [] => [[c]]
           end
  end.

Definition digit_val (c : ascii) : option Z :=
  let n := Z.of_nat (nat_of_ascii c) in
  if (48 <=? n) && (n <=? 57) then Some (n - 48) else None.

Definition is_digit (c : ascii) : bool :=
  match digit_val c with Some _ => true | None => false end.

(** The longest prefix of the form [digit (["_"] digit)*], as digit values,
    and what follows it.  An underscore counts only between two digits. *)
Fixpoint scan_digits (t : text) : list Z * text :=
  match t with
  | c :: r =>
      match digit_val c with
      | Some d =>
          match r with
          | u :: ((c2 :: _) as r2) =>
              if Ascii.eqb u "_"%char && is_digit c2
              then let (ds, rest) := scan_digits r2 in (d :: ds, rest)
              else let (ds, rest) := scan_digits r in (d :: ds, rest)
          | _ => let (ds, rest) := scan_digits r in (d :: ds, rest)
          end
      | None => ([], t)
      end
  | [] => ([], [])
  end.

Definition digits_value (ds : list Z) : Z :=
  fold_left (fun acc d => 10 * acc + d) ds 0.

(** An optional sign; [true] is minus. *)
Definition scan_sign (t : text) : bool * text :=
  match t with
  | c :: r =>
      if Ascii.eqb c "-"%char then (true, r)
      else if Ascii.eqb c "+"%char then (false, r)
      else (false, t)
  | [] => (false, [])
  end.

(** ** What [int] and [float] read of a [str] *)

(** White space for the C code of the two parsers ([Py_ISSPACE]): TAB, LF,
    VT, FF, CR and the blank, and no other character. *)
Definition is_cspace (c : ascii) : bool :=
  let n := Z.of_nat (nat_of_ascii c) in
  ((9 <=? n) && (n <=? 13)) || (n =? 32).

Fixpoint lskip (t : text) : text :=
  match t with
  | c :: r => if is_cspace c then lskip r else t
  | [] => []
  end.

(** The text between the white space the parsers skip at both ends. *)
Definition trim (t : text) : text := rev (lskip (rev (lskip t))).

Definition is_ascii (c : ascii) : bool :=
  Z.of_nat (nat_of_ascii c) <? 128.

(** A text with a character beyond ASCII is first brought to ASCII: a
    character below 127 stays, white space becomes a blank, a decimal
    digit would become its ASCII digit (there is none from 127 to 255),
    and at any other character the text ends with a question mark. *)
Fixpoint transform (t : text) : text :=
  match t with
  | [] => []
  | c :: r =>
      if Z.of_nat (nat_of_ascii c) <? 127 then c :: transform r
      else if is_space c then " "%char :: transform r
      else [ "?"%char ]
  end.

Definition decoded (t : text) : text :=
  if forallb is_ascii t then t else transform t.

(** [sys.get_int_max_str_digits()], which the script leaves at its
    default. *)
Definition max_str_digits : Z := 4300.

(** [int(s)] for a [str] in base 10: white space around, a sign, digits
    with single underscores between them, and no more digits than the
    interpreter allows.  [None] is [ValueError]. *)
Definition int (t : text) : option Z :=
  let (neg, r) := scan_sign (trim (decoded t)) in
  match scan_digits r with
  | ((_ :: _) as ds, []) =>
      if Z.of_nat (List.length ds) <=? max_str_digits
      then Some (if neg then - digits_value ds else digits_value ds)
      else None
  | _ => None
  end.

(** ** [float(s)] *)

(** The binary64 number nearest to [m * 10^e10] (ties to even), [m > 0],
    with sign [neg]: an exact integer when [e10 >= 0], otherwise the
    quotient by [10^-e10] carried to 64 bits and more with the position of
    the remainder. *)
Definition float_of_decimal (neg : bool) (m e10 : Z) : float :=
  match m with
  | Zpos _ =>
      if 0 <=? e10
      then SF2Prim (binary_normalize prec emax
                      (if neg then - (m * 10 ^ e10) else m * 10 ^ e10) 0 false)
      else
        let d := 10 ^ (- e10) in
        let s := Z.log2_up d + 64 in
        let (q, r) := Z.div_eucl (Z.shiftl m s) d in
        SF2Prim (binary_round_aux prec emax neg q (- s) (new_location d r))
  | _ => if neg then PrimFloat.neg_zero else PrimFloat.zero
  end.

Definition lower (c : ascii) : ascii :=
  let n := nat_of_ascii c in
  if (65 <=? Z.of_nat n) && (Z.of_nat n <=? 90)
  then ascii_of_nat (n + 32) else c.

Definition text_eqb (a b : text) : bool :=
  String.eqb (to_string a) (to_string b).

(** The exponent part, [("e" | "E") [sign] digitpart], or nothing. *)
Definition scan_exponent (t : text) : option (Z * text) :=
  match t with
  | c :: r =>
      if Ascii.eqb (lower c) "e"%char then
        let (neg, r1) := scan_sign r in
        match scan_digits r1 with
        | ((_ :: _) as ds, rest) =>
            Some (if neg then - digits_value ds else digits_value ds, rest)
        | _ => None
        end
      else Some (0, t)
  | [] => Some (0, [])
  end.

(** [float(s)] for a [str]: white space around, a sign, then [inf],
    [infinity] or [nan] in any case, or a decimal number
    [[digitpart] "." digitpart | digitpart ["."]] with an optional
    exponent.  [None] is [ValueError]. *)
Definition float (t : text) : option PrimFloat.float :=
  let (neg, r) := scan_sign (trim (decoded t)) in
  let word := map lower r in
  if text_eqb word (of_string "inf") || text_eqb word (of_string "infinity")
  then Some (if neg then PrimFloat.neg_infinity else PrimFloat.infinity)
  else if text_eqb word (of_string "nan") then Some PrimFloat.nan
  else
    let (ip, r1) := scan_digits r in
    let '(fp, r2, dot) :=
      match r1 with
      | c :: r' =>
          if Ascii.eqb c "."%char
          then let (fp, r2) := scan_digits r' in (fp, r2, true)
          else ([], r1, false)
      | [] => ([], [], false)
      end in
    match ip, fp with
    | [], [] => None
    | _, _ =>
        match scan_exponent r2 with
        | Some (ex, []) =>
            Some (float_of_decimal neg (digits_value (ip ++ fp))
                    (ex - Z.of_nat (List.length fp)))
        | _ => None
        end
    end.

(** ** Numbers and [sum] *)

(** A Python number as this script meets them: the [int] that [sum]
    starts from, or a [float]. *)
Inductive num : Type :=
  | PyInt (z : Z)
  | PyFloat (f : PrimFloat.float).

(** [float(z)] for an [int]: the nearest binary64 number. *)
Definition float_of_Z (z : Z) : PrimFloat.float :=
  SF2Prim (binary_normalize prec emax z 0 false).

Definition to_float (x : num) : PrimFloat.float :=
  match x with
  | PyInt z => float_of_Z z
  | PyFloat f => f
  end.

(** [sum] adds from left to right, starting from the [int] 0.  Up to
    CPython 3.11 that is all it does; from 3.12 on, once the running
    total is a [float], the items are added with Neumaier's compensated
    summation and the compensation is added at the end. *)
Inductive sum_impl : Type :=
  | LeftToRight
  | Compensated.

Fixpoint neumaier (s c : PrimFloat.float) (l : list PrimFloat.float)
  : PrimFloat.float :=
  match l with
  | [] =>
      if negb (PrimFloat.eqb c PrimFloat.zero) && PrimFloat.is_finite c
      then PrimFloat.add s c else s
  | x :: r =>
      let t := PrimFloat.add s x in
      let c' :=
        if PrimFloat.leb (PrimFloat.abs x) (PrimFloat.abs s)
        then PrimFloat.add c (PrimFloat.add (PrimFloat.sub s t) x)
        else PrimFloat.add c (PrimFloat.add (PrimFloat.sub x t) s) in
      neumaier t c' r
  end.

(** [sum(l)] for a sequence of [float]s. *)
Definition sum (impl : sum_impl) (l : list PrimFloat.float) : num :=
  match l with
  | [] => PyInt 0
  | x :: r =>
      let s0 := PrimFloat.add (float_of_Z 0) x in
      match impl with
      | LeftToRight => PyFloat (fold_left PrimFloat.add r s0)
      | Compensated => PyFloat (neumaier s0 PrimFloat.zero r)
      end
  end.

(** Adding 1.0 to the float of [k] is exact: the total becomes the float
    of [k + 1] and the compensation stays 0. *)
Definition ones_step (k : Z) : bool :=
  let s := float_of_Z k in
  let t := PrimFloat.add s 1%float in
  PrimFloat.Leibniz.eqb t (float_of_Z (k + 1))
  && PrimFloat.leb (PrimFloat.abs 1%float) (PrimFloat.abs s)
  && PrimFloat.Leibniz.eqb
       (PrimFloat.add PrimFloat.zero
          (PrimFloat.add (PrimFloat.sub s t) 1%float))
       PrimFloat.zero.

(** ** Floats of integers, for the proofs *)

(** [p] followed by [j] binary zeros. *)
Definition shl (p : positive) (j : nat) : positive := Nat.iter j xO p.

(** The binary64 number of value [p], for [p] of at most 53 binary
    digits, with sign [s]: a mantissa of exactly 53 digits. *)
Definition canon (s : bool) (p : positive) : spec_float :=
  S754_finite s (shl p (Z.to_nat (53 - Zpos (digits2_pos p))))
    (Zpos (digits2_pos p) - 53).

(** ** Multiples of a power of two *)

(** The binary64 number nearest to [z * 2^e]: [float_of_Z z] for [e = 0],
    and [z * 2^e] itself when [z] has at most 53 binary digits and [e] is
    the exponent of normal numbers. *)
Definition dyadic (z e : Z) : PrimFloat.float :=
  SF2Prim (binary_normalize prec emax z e false).

(** The binary64 number of value [p * 2^e], for [p] of at most 53 binary
    digits, with sign [s]. *)
Definition canon_at (s : bool) (p : positive) (e : Z) : spec_float :=
  S754_finite s (shl p (Z.to_nat (53 - Zpos (digits2_pos p))))
    (Zpos (digits2_pos p) - 53 + e).

Definition sign_of (z : Z) : bool :=
  match z with Zneg _ => true | _ => false end.

(** The binary64 number of value [z * 2^e]. *)
Definition repr (z e : Z) : spec_float :=
  match z with
  | Z0 => S754_zero false
  | Zpos p => canon_at false p e
  | Zneg p => canon_at true p e
  end.

(** The sum of a list of integers, and the sum of their absolute
    values. *)
Definition int_sum (zs : list Z) : Z := fold_right Z.add 0 zs.

Definition abs_sum (zs : list Z) : Z :=
  fold_right (fun z acc => Z.abs z + acc) 0 zs.

End Py.

(* ================================================================== *)
(** * networkx.Graph *)
(* ================================================================== *)

Module Nx.

(** ** Insertion-ordered dicts with integer keys *)

Section Dict.
Context {V : Type}.

Definition dict := list (Z * V).

Fixpoint get (k : Z) (d : dict) : option V :=
  match d with
  | [] => None
  | (k', v) :: r => if k =? k' then Some v else get k r
  end.

(** [d[k] = v]: a key already there keeps its place, a new one goes
    last. *)
Fixpoint set (k : Z) (v : V) (d : dict) : dict :=
  match d with
  | [] => [(k, v)]
  | (k', v') :: r => if k =? k' then (k, v) :: r else (k', v') :: set k v r
  end.

Definition mem (k : Z) (d : dict) : bool :=
  match get k d with Some _ => true | None => false end.

Definition keys (d : dict) : list Z := map fst d.
End Dict.

Arguments dict V : clear implicits.

(** The attribute dict of an edge: ['weight'], and ['quadratic'] once
    [run_solver] has copied the weight into it. *)
Record datadict : Type := mkData {
  weight : PrimFloat.float;
  quadratic : option PrimFloat.float
}.

(** [_adj]: node -> neighbour -> attribute dict.  [_node] has the same
    keys in the same order (a node enters both at once, with no
    attributes), so it is not kept apart.  The two entries [_adj[u][v]]
    and [_adj[v][u]] of an edge are one shared Python dict; they are
    written together below. *)
Definition Graph := dict (dict datadict).

Definition empty : Graph := [].

Definition nbrs (u : Z) (G : Graph) : dict datadict :=
  match get u G with Some d => d | None => [] end.

Definition add_node (u : Z) (G : Graph) : Graph :=
  if mem u G then G else set u [] G.

(** [G.get_edge_data(u, v)]: the attribute dict [_adj[u][v]], if any. *)
Definition get_edge_data (u v : Z) (G : Graph) : option datadict :=
  get v (nbrs u G).

(** [datadict = _adj[u].get(v, {}); datadict.update(weight=w)] *)
Definition updated (w : PrimFloat.float) (old : option datadict) : datadict :=
  match old with
  | Some d => mkData w (quadratic d)
  | None => mkData w None
  end.

(** [G.add_edge(u, v, weight=w)] *)
Definition add_edge (u v : Z) (w : PrimFloat.float) (G : Graph) : Graph :=
  let G1 := add_node u G in
  let G2 := add_node v G1 in
  let dd := updated w (get_edge_data u v G2) in
  let G3 := set u (set v dd (nbrs u G2)) G2 in
  set v (set u dd (nbrs v G3)) G3.

Definition memb (k : Z) (l : list Z) : bool := existsb (Z.eqb k) l.

(** The iteration of [G.edges(data=True)]: each node in turn, its
    neighbours in turn, skipping the neighbours already done. *)
Fixpoint edges_from (seen : list Z) (adj : Graph) : list (Z * Z * datadict) :=
  match adj with
  | [] => []
  | (n, nb) :: rest =>
      map (fun p => (n, fst p, snd p))
          (filter (fun p => negb (memb (fst p) seen)) nb)
      ++ edges_from (n :: seen) rest
  end.

Definition edges (G : Graph) : list (Z * Z * datadict) := edges_from [] G.

(** [G.edges[u, v]['quadratic'] = G.edges[u, v]['weight']] *)
Definition copy_weight (u v : Z) (G : Graph) : Graph :=
  match get_edge_data u v G with
  | Some d =>
      let dd := mkData (weight d) (Some (weight d)) in
      let G1 := set u (set v dd (nbrs u G)) G in
      set v (set u dd (nbrs v G1)) G1
  | None => G
  end.

(** ** Unordered pairs of nodes *)

Definition same_pair (p q : Z * Z) : bool :=
  ((fst p =? fst q) && (snd p =? snd q))
  || ((fst p =? snd q) && (snd p =? fst q)).

Definition pair_eq_dec (p q : Z * Z) : {p = q} + {p <> q}.
Proof. decide equality; apply Z.eq_dec. Defined.

(** The pair with its smaller node first. *)
Definition norm (p : Z * Z) : Z * Z :=
  (Z.min (fst p) (snd p), Z.max (fst p) (snd p)).

(** A graph as [add_edge] builds them: every key once, and the two
    entries of an edge in step. *)
Record wf (G : Graph) : Prop := mkWf {
  wf_keys : NoDup (keys G);
  wf_inner : forall u, NoDup (keys (nbrs u G));
  wf_sym : forall u v, get_edge_data u v G = get_edge_data v u G
}.

End Nx.

(* ================================================================== *)
(** * The script *)
(* ================================================================== *)

Module Script.

Import Py Nx.
Local Open Scope string_scope.

(** ** Exceptions, output and the monads *)

Inductive exn : Type :=
  | ValueError
  | FileNotFoundError.

(** [result A]: the value of an expression, or the exception it raises. *)
Inductive result (A : Type) : Type :=
  | Ok (a : A)
  | Raise (e : exn).

Arguments Ok {A} a.
Arguments Raise {A} e.

(** A piece of formatted text: the [str] of the values of an f-string is
    left to Python, so a line keeps the values themselves. *)
Inductive frag : Type :=
  | Lit (s : string)
  | FInt (z : Z)
  | FNum (x : num)
  | FFloat (f : PrimFloat.float)
  | FNodes (l : list Z).

Inductive jvalue : Type :=
  | JInt (z : Z)
  | JBool (b : bool)
  | JNum (x : num)
  | JFloat (f : PrimFloat.float)
  | JStr (s : string).

(** What is written to a file: text, or the dict handed to [json.dump]
    with its keys in order. *)
Inductive content : Type :=
  | Text (t : list frag)
  | Json (d : list (string * jvalue)).

(** The effects of a run, each in the order it happened. *)
Record world : Type := mkWorld {
  files : list (string * content);
  dirs : list string;
  stdout : list (list frag)
}.

Definition initial : world := mkWorld [] [] [].

Definition M (A : Type) : Type := world -> result A * world.

Definition ret {A} (a : A) : M A := fun w => (Ok a, w).

Definition bind {A B} (m : M A) (f : A -> M B) : M B :=
  fun w =>
    match m w with
    | (Ok a, w') => f a w'
    | (Raise e, w') => (Raise e, w')
    end.

Definition lift {A} (r : result A) : M A := fun w => (r, w).

Notation "x <- m ;; f" := (bind m (fun x => f))
  (at level 61, m at next level, right associativity).
Notation "m ;; f" := (bind m (fun _ => f))
  (at level 61, right associativity).

Definition print (line : list frag) : M unit :=
  fun w => (Ok tt, mkWorld (files w) (dirs w) (stdout w ++ [line])).

(** [with open(path, "w") as f: f.write(...)] and [json.dump] alike. *)
Definition write (path : string) (c : content) : M unit :=
  fun w => (Ok tt, mkWorld (files w ++ [(path, c)]) (dirs w) (stdout w)).

(** [os.makedirs(path, exist_ok=True)] *)
Definition makedirs (path : string) : M unit :=
  fun w => (Ok tt, mkWorld (files w) (dirs w ++ [path]) (stdout w)).

Fixpoint for_each {A} (l : list A) (body : A -> M unit) : M unit :=
  match l with
  | [] => ret tt
  | a :: r => body a ;; for_each r body
  end.

(** The end of a line. *)
Definition newline : string := String (ascii_of_nat 10) EmptyString.

(** [str(z)] for an [int]. *)
Definition str (z : Z) : string := NilZero.string_of_int (Z.to_int z).

(** [os.path.join(a, b)] for two parts (posixpath). *)
Definition path_join (a b : string) : string :=
  match b with
  | String "/" _ => b
  | _ =>
      match rev (of_string a) with
      | [] => b
      | c :: _ => if Ascii.eqb c "/" then a ++ b else a ++ "/" ++ b
      end
  end.

(** ** [load_graph] *)

(** One turn of the loop of [load_graph], up to the call of [add_edge]:
    the weight and the two nodes of a line. *)
Definition parse_line (weighted : bool) (line : string)
  : result (PrimFloat.float * Z * Z) :=
  match split "," (strip (of_string line)) with
  | [weight_str; node1_str; node2_str] =>
      match int node1_str with
      | None => Raise ValueError
      | Some node1 =>
          match int node2_str with
          | None => Raise ValueError
          | Some node2 =>
              if weighted then
                match float weight_str with
                | None => Raise ValueError
                | Some weight => Ok (weight, node1, node2)
                end
              else Ok (1%float, node1, node2)
          end
      end
  | _ => Raise ValueError
  end.

Fixpoint load_lines (weighted : bool) (lines : list string) (G : Graph)
  : result Graph :=
  match lines with
  | [] => Ok G
  | line :: rest =>
      match parse_line weighted line with
      | Ok (weight, node1, node2) =>
          load_lines weighted rest (add_edge node1 node2 weight G)
      | Raise e => Raise e
      end
  end.

(** The nodes of a parsed line, and the turn of the loop that adds it. *)
Definition pair_of (t : PrimFloat.float * Z * Z) : Z * Z :=
  (snd (fst t), snd t).

Definition add_parsed (G : Graph) (t : PrimFloat.float * Z * Z) : Graph :=
  add_edge (snd (fst t)) (snd t) (fst (fst t)) G.

Definition is_some {A} (o : option A) : bool :=
  match o with Some _ => true | None => false end.

(** A line that [load_graph] accepts: three fields between commas, the
    second and third read by [int] and, in weighted mode only, the first
    read by [float]. *)
Definition line_ok (weighted : bool) (line : string) : bool :=
  match split "," (strip (of_string line)) with
  | [weight_str; node1_str; node2_str] =>
      is_some (int node1_str) && is_some (int node2_str)
      && (negb weighted || is_some (float weight_str))
  | _ => false
  end.

Section Run.

(** The files that can be read, as the lines their iteration yields
    (each with its end of line); [None] when [open] finds no file. *)
Variable read : string -> option (list string).

Definition load_graph (filepath : string) (weighted : bool) : result Graph :=
  match read filepath with
  | None => Raise FileNotFoundError
  | Some lines => load_lines weighted lines empty
  end.

(** ** The model handed to the solver *)

(** dimod is not embedded.  Of the call
    [dimod.BinaryQuadraticModel.from_networkx_graph(G, vartype='SPIN',
    edge_attribute_name='quadratic')] the value below keeps what the call
    is given of [G]: its nodes in their order, and its edges in the order
    of [G.edges], each with its ['quadratic'] ([None] when it has none).
    What dimod builds from them (the variables and their order, the bias
    of a node, what becomes of an edge from a node to itself or of the
    sign of a zero) is, with the solver, in [solve] below. *)
Record BQM : Type := mkBQM {
  variables : list Z;
  interactions : list (Z * Z * option PrimFloat.float)
}.

Definition from_networkx_graph (G : Graph) : BQM :=
  mkBQM (keys G)
        (map (fun e => match e with (u, v, d) => (u, v, quadratic d) end)
             (edges G)).

(** A sample: node -> spin, in the order [sample.items()] gives. *)
Definition sample := dict Z.

(** [list(solver.sample(bqm).data(fields=['sample', 'energy']))] *)
Variable solve : BQM -> list (sample * PrimFloat.float).

(** Which [sum] the interpreter has. *)
Variable impl : sum_impl.

(** ** [run_solver] *)

Definition total_weight (G : Graph) : num :=
  sum impl (map (fun e => weight (snd e)) (edges G)).

Definition cut_value (W : num) (E : PrimFloat.float) : PrimFloat.float :=
  ((to_float W - E) / 2)%float.

Definition S0_of (s : sample) : list Z :=
  map fst (filter (fun p => Z.eqb (snd p) (-1)) s).

Definition S1_of (s : sample) : list Z :=
  map fst (filter (fun p => Z.eqb (snd p) 1) s).

Definition dashes : string :=
  string_of_list_ascii (repeat "-"%char 40).

(** The five lines one turn of the reporting loop prints. *)
Definition report_lines (W : num) (se : sample * PrimFloat.float)
  : list (list frag) :=
  [ [Lit "S0: "; FNodes (S0_of (fst se))];
    [Lit "S1: "; FNodes (S1_of (fst se))];
    [Lit "Ising Energy: "; FFloat (snd se)];
    [Lit "Computed MaxCut value: "; FFloat (cut_value W (snd se))];
    [Lit dashes] ].

Definition report (W : num) (se : sample * PrimFloat.float) : M unit :=
  let (sample, E) := se in
  let cut_value := cut_value W E in
  let S0 := S0_of sample in
  let S1 := S1_of sample in
  print [Lit "S0: "; FNodes S0] ;;
  print [Lit "S1: "; FNodes S1] ;;
  print [Lit "Ising Energy: "; FFloat E] ;;
  print [Lit "Computed MaxCut value: "; FFloat cut_value] ;;
  print [Lit dashes].

Definition graph_path (N k : Z) : string :=
  "/Users/guillermo.preisser/Projects/QiILS/graphs/"
    ++ str N ++ "/" ++ str k ++ "/".

Definition output_dir (N k : Z) : string :=
  "/Users/guillermo.preisser/Projects/QiILS/solutions/random_regular/"
    ++ str N ++ "/" ++ str k ++ "/".

Definition tag (N k seed seedb : Z) : string :=
  "_N" ++ str N ++ "_k" ++ str k ++ "_seed" ++ str seed
    ++ "_seedb" ++ str seedb.

Definition graph_file (N k seed : Z) : string :=
  path_join (graph_path N k) ("graph" ++ tag N k seed seed ++ ".txt").

Definition sumweights_file (N k seed : Z) : string :=
  path_join (output_dir N k) ("sumweights" ++ tag N k seed seed ++ ".txt").

Definition out_file (N k seed : Z) (weighted : bool) : string :=
  path_join (output_dir N k)
    ("akmaxdata" ++ tag N k seed seed ++ "_"
       ++ (if weighted then "weighted" else "unweighted") ++ ".json").

Definition savedict (N k seed : Z) (weighted : bool) (W : num)
    (first_energy first_cut : PrimFloat.float) : list (string * jvalue) :=
  [ ("N", JInt N);
    ("k", JInt k);
    ("seed", JInt seed);
    ("weighted", JBool weighted);
    ("W", JNum W);
    ("ising_energy", JFloat first_energy);
    ("maxcut_value", JFloat first_cut);
    ("method", JStr "AKMaxSAT") ].

Definition add_quadratic (G : Graph) : Graph :=
  fold_left (fun G e => copy_weight (fst (fst e)) (snd (fst e)) G)
            (edges G) G.

Definition run_solver (N k seed : Z) (weighted : bool) : M unit :=
  makedirs (output_dir N k) ;;
  G <- lift (load_graph (graph_file N k seed) weighted) ;;
  let W := total_weight G in
  write (sumweights_file N k seed) (Text [FNum W; Lit newline]) ;;
  print [Lit "Saved total edge weight W="; FNum W; Lit " to ";
         Lit (sumweights_file N k seed)] ;;
  let bqm := from_networkx_graph (add_quadratic G) in
  let energy_data := solve bqm in
  print [Lit "Number of samples returned: ";
         FInt (Z.of_nat (List.length energy_data))] ;;
  for_each energy_data (report W) ;;
  match energy_data with
  | (_, first_energy) :: _ =>
      let first_cut := cut_value W first_energy in
      print [Lit "Saving results to "; Lit (out_file N k seed weighted)] ;;
      write (out_file N k seed weighted)
            (Json (savedict N k seed weighted W first_energy first_cut)) ;;
      print [Lit "File saved successfully!"]
  | [] => print [Lit "No energy data found. Nothing to save."]
  end.

End Run.

End Script.

(* ================================================================== *)
(** * Runs used as examples *)
(* ================================================================== *)

Module Examples.

Import Py Nx Script.
Local Open Scope string_scope.

(** The only file of an example run: [graph_N10_k3_seed2_seedb2.txt], as
    the batch of the script asks for it. *)
Definition only_file (lines : list string) (path : string)
  : option (list string) :=
  if String.eqb path (graph_file 10 3 2) then Some lines else None.

Definition triangle_lines : list string :=
  [ "1.0,0,1" ++ newline; "2.0,1,2" ++ newline; "1.5,0,2" ++ newline ].

Definition triangle_graph : Graph :=
  add_edge 0 2 1.5%float (add_edge 1 2 2%float (add_edge 0 1 1%float empty)).

Definition triangle_solve (_ : BQM) : list (sample * PrimFloat.float) :=
  [ ([(0, -1); (1, 1); (2, -1)], (-4.5)%float) ].

Definition no_samples (_ : BQM) : list (sample * PrimFloat.float) := [].

(** A solver that breaks its contract: spins 0 and 2. *)
Definition off_domain_solve (_ : BQM) : list (sample * PrimFloat.float) :=
  [ ([(0, 0); (1, 2); (2, -1)], 0%float) ].

(** Five edges on ten nodes, and the same five lines in another order. *)
Definition spread_lines : list string :=
  [ "1e30,0,1" ++ newline; "1,2,3" ++ newline; "1e-30,4,5" ++ newline;
    "-1e30,6,7" ++ newline; "-1,8,9" ++ newline ].

Definition spread_lines' : list string :=
  [ "1e-30,4,5" ++ newline; "1e30,0,1" ++ newline; "-1e30,6,7" ++ newline;
    "1,2,3" ++ newline; "-1,8,9" ++ newline ].

(** Three everyday weights, and the same lines from last to first. *)
Definition tenths_lines : list string :=
  [ "0.1,0,1" ++ newline; "0.2,2,3" ++ newline; "0.3,4,5" ++ newline ].

Definition tenths_lines' : list string :=
  [ "0.3,4,5" ++ newline; "0.2,2,3" ++ newline; "0.1,0,1" ++ newline ].

(** A weight field that is no number. *)
Definition worded_lines : list string := [ "abc,0,1" ++ newline ].

(** The edge 0-1 twice, the second time from the other end. *)
Definition repeated_lines : list string :=
  [ "1.0,0,1" ++ newline; "2.0,1,2" ++ newline; "5.0,1,0" ++ newline ].

Definition loaded (weighted : bool) (lines : list string) : Graph :=
  match load_lines weighted lines empty with
  | Ok G => G
  | Raise _ => empty
  end.

End Examples.

(* ================================================================== *)
(** * The batch and the end of the script *)
(* ================================================================== *)

Module Batch.

Import Py Nx Script.
Local Open Scope string_scope.

(** [range(a, b)] *)
Definition range (a b : Z) : list Z :=
  map (fun i => a + Z.of_nat i) (seq 0 (Z.to_nat (b - a))).

(** [str(b)] for a [bool]. *)
Definition str_bool (b : bool) : string := if b then "True" else "False".

(** The line printed before each run of the batch; it starts with an end
    of line. *)
Definition header (N k seed : Z) (weighted : bool) : list frag :=
  [ Lit (newline ++ "Running AKMaxSAT for N="); FInt N;
    Lit ", k="; FInt k; Lit ", seed="; FInt seed;
    Lit ", weighted="; Lit (str_bool weighted) ].

(** The graph loaded at module level, after the batch. *)
Definition debug_path : string :=
  "/Users/guillermo.preisser/Projects/creatinggraphs/graphs/10/3/graph_N10_k3_seed1_seedb1.txt".

Section Whole.

Variable read : string -> option (list string).
Variable solve : BQM -> list (sample * PrimFloat.float).
Variable impl : sum_impl.

(** The loop of the main block, for any [seeds], [N], [k] and
    [weighted]. *)
Definition batch (seeds : list Z) (N k : Z) (weighted : bool) : M unit :=
  for_each seeds
    (fun seed =>
       print (header N k seed weighted) ;;
       run_solver read solve impl N k seed weighted).

(** The main block as it stands: [seeds = range(2, 3)], [N = 10],
    [k = 3], [weighted = True]. *)
Definition main : M unit := batch (range 2 3) 10 3 true.

(** The whole module: the main block when it runs as a script, then, in
    every case, the load of the graph at [debug_path]. *)
Definition module (as_script : bool) : M unit :=
  (if as_script then main else ret tt) ;;
  G <- lift (load_graph read debug_path true) ;;
  ret tt.

End Whole.

End Batch.

(* ================================================================== *)
(** * Graphs seen through their data *)
(* ================================================================== *)

Module Views.

Import Py Nx Script.
Local Open Scope string_scope.

(** A dict with [f] applied to every value, keys and order kept. *)
Definition map_values {V W} (f : V -> W) (d : dict V) : dict W :=
  map (fun p => (fst p, f (snd p))) d.

(** A graph with [f] applied to the attribute dict of every edge. *)
Definition map_data (f : datadict -> datadict) (G : Graph) : Graph :=
  map_values (map_values f) G.

(** The attribute dict after the copy of ['weight'] into
    ['quadratic']. *)
Definition with_quadratic (d : datadict) : datadict :=
  mkData (weight d) (Some (weight d)).

(** The attribute dict with the weight of unweighted mode. *)
Definition with_unit_weight (d : datadict) : datadict :=
  mkData 1%float (quadratic d).

(** The two entries of the edge [u]-[v] set to the attribute dict [dd]:
    the last step of [add_edge] and of [copy_weight]. *)
Definition put_edge (u v : Z) (dd : datadict) (G : Graph) : Graph :=
  let G1 := set u (set v dd (nbrs u G)) G in
  set v (set u dd (nbrs v G1)) G1.

(** The line of a parsed line in unweighted mode. *)
Definition unit_line (t : PrimFloat.float * Z * Z)
  : PrimFloat.float * Z * Z :=
  (1%float, snd (fst t), snd t).

(** The nodes a parsed line names. *)
Definition nodes_of (t : PrimFloat.float * Z * Z) : list Z :=
  [snd (fst t); snd t].

(** A sample with every spin negated. *)
Definition flip_spins (s : sample) : sample := map_values Z.opp s.

(** The nodes of a sample whose spin is neither -1 nor +1. *)
Definition off_domain (s : sample) : list Z :=
  map fst
    (filter (fun p => negb (Z.eqb (snd p) (-1) || Z.eqb (snd p) 1)) s).

(** Text made of blanks only. *)
Definition blank (t : text) : bool := forallb is_space t.

(** A text of the white space that [int] and [float] skip. *)
Definition cblank (t : text) : bool := forallb is_cspace t.

(** A character that can stand in a number: its code is at least 43 (the
    plus sign) and it is no question mark. *)
Definition token (c : ascii) : bool :=
  let n := Z.of_nat (nat_of_ascii c) in ((43 <=? n) && negb (n =? 63))%Z.

(** The separators 28..31: white space for [str.strip], and not for
    [int] and [float]. *)
Definition separator (c : ascii) : bool :=
  let n := Z.of_nat (nat_of_ascii c) in ((28 <=? n) && (n <=? 31))%Z.

(** A text that [transform] goes through to its end. *)
Definition clean (t : text) : bool :=
  forallb (fun c => (Z.of_nat (nat_of_ascii c) <? 127)%Z || is_space c) t.

(** A file with blanks around the lines and the fields, Windows ends of
    line, and an empty last line. *)
Definition padded_lines : list string :=
  [ "  1.0 , 0,1 " ++ String (ascii_of_nat 13) newline;
    "2.0,1 ,  2" ++ newline ].

Definition trailing_blank_lines : list string :=
  [ "1.0,0,1" ++ newline; newline ].

End Views.

(* ================================================================== *)
(** * Facts about binary64 sums that are exact *)
(* ================================================================== *)

Module PyFacts.

Import Py.

Lemma iter_pos_nat {A} (f : A -> A) p : forall x,
  SpecFloat.iter_pos f p x = Nat.iter (Pos.to_nat p) f x.
Proof.
  induction p as [p IH|p IH|]; intros x; cbn [SpecFloat.iter_pos].
  - rewrite !IH, Pos2Nat.inj_xI.
    replace (S (2 * Pos.to_nat p)) with (Pos.to_nat p + Pos.to_nat p + 1)%nat
      by lia.
    now rewrite !Nat.iter_add.
  - rewrite !IH, Pos2Nat.inj_xO.
    replace (2 * Pos.to_nat p)%nat with (Pos.to_nat p + Pos.to_nat p)%nat
      by lia.
    now rewrite Nat.iter_add.
  - reflexivity.
Qed.

Lemma Pos_iter_nat {A} (f : A -> A) p x :
  Pos.iter f x p = Nat.iter (Pos.to_nat p) f x.
Proof. apply Pos2Nat.inj_iter. Qed.

Lemma shl_shl p a b : shl (shl p a) b = shl p (a + b).
Proof. unfold shl. rewrite Nat.add_comm. now rewrite Nat.iter_add. Qed.

Lemma shl_S p j : shl p (S j) = xO (shl p j).
Proof. reflexivity. Qed.

Lemma Zpos_shl p j : Zpos (shl p j) = Zpos p * 2 ^ Z.of_nat j.
Proof.
  induction j as [|j IH].
  - simpl. lia.
  - rewrite shl_S, (Pos2Z.inj_xO (shl p j)), IH.
    rewrite Nat2Z.inj_succ, Z.pow_succ_r by lia. ring.
Qed.

Lemma digits_shl p j :
  Zpos (digits2_pos (shl p j)) = Zpos (digits2_pos p) + Z.of_nat j.
Proof.
  induction j as [|j IH].
  - simpl. lia.
  - rewrite shl_S. cbn [digits2_pos]. rewrite Pos2Z.inj_succ, IH. lia.
Qed.

Lemma digits_bounds p :
  2 ^ (Zpos (digits2_pos p) - 1) <= Zpos p < 2 ^ Zpos (digits2_pos p).
Proof.
  induction p as [p IH|p IH|]; cbn [digits2_pos].
  - pose proof (Pos2Z.inj_xI p) as E. rewrite Pos2Z.inj_succ.
    replace (Z.succ (Z.pos (digits2_pos p)) - 1) with
      (Z.succ (Z.pos (digits2_pos p) - 1)) by lia.
    rewrite !Z.pow_succ_r by lia. lia.
  - pose proof (Pos2Z.inj_xO p) as E. rewrite Pos2Z.inj_succ.
    replace (Z.succ (Z.pos (digits2_pos p)) - 1) with
      (Z.succ (Z.pos (digits2_pos p) - 1)) by lia.
    rewrite !Z.pow_succ_r by lia. lia.
  - simpl. lia.
Qed.

Lemma digits_le_53 p : Zpos p < 2 ^ 53 -> Zpos (digits2_pos p) <= 53.
Proof.
  intros H. pose proof (digits_bounds p) as [Hl _].
  destruct (Z_le_gt_dec (Zpos (digits2_pos p)) 53) as [|Hgt]; [assumption|].
  exfalso.
  assert (2 ^ 53 <= 2 ^ (Zpos (digits2_pos p) - 1))
    by (apply Z.pow_le_mono_r; lia).
  lia.
Qed.

Lemma digits_mono p q :
  Zpos p <= Zpos q -> Zpos (digits2_pos p) <= Zpos (digits2_pos q).
Proof.
  intros H. pose proof (digits_bounds p) as [Hl _].
  pose proof (digits_bounds q) as [_ Hu].
  destruct (Z_le_gt_dec (Zpos (digits2_pos p)) (Zpos (digits2_pos q)))
    as [|Hgt]; [assumption|]. exfalso.
  assert (2 ^ Zpos (digits2_pos q) <= 2 ^ (Zpos (digits2_pos p) - 1))
    by (apply Z.pow_le_mono_r; lia).
  lia.
Qed.

Lemma shr_shl q : forall p r,
  Nat.iter q shr_1 (Build_shr_record (Zpos (shl p (q + r))) false false)
  = Build_shr_record (Zpos (shl p r)) false false.
Proof.
  induction q as [|q IH]; intros p r.
  - reflexivity.
  - rewrite Nat.iter_succ_r.
    replace (S q + r)%nat with (S (q + r)) by lia.
    rewrite shl_S. cbn [shr_1 orb]. apply IH.
Qed.

Lemma shl_align_le m e e' :
  e' <= e -> shl_align m e e' = (shl m (Z.to_nat (e - e')), e').
Proof.
  intros H. unfold shl_align.
  destruct (e' - e) as [|d|d] eqn:E; try lia.
  - replace (e - e') with 0 by lia. simpl. f_equal. lia.
  - rewrite Pos_iter_nat. f_equal. unfold shl. f_equal. lia.
Qed.

Lemma fexp_53 e : -1074 <= e -> fexp prec emax (53 + e) = e.
Proof. intros H. unfold fexp, emin, prec, emax. lia. Qed.

(** A mantissa of 53 digits followed by [q] zeros shifts back exactly. *)
Lemma shr_fexp_exact m e q :
  Zpos (digits2_pos m) = 53 -> -1074 <= e ->
  shr_fexp prec emax (Zpos (shl m q)) (e - Z.of_nat q) loc_Exact
  = (Build_shr_record (Zpos m) false false, e).
Proof.
  intros Hm He. unfold shr_fexp, Zdigits2.
  rewrite digits_shl, Hm.
  replace (53 + Z.of_nat q + (e - Z.of_nat q)) with (53 + e) by lia.
  rewrite (fexp_53 e He).
  replace (e - (e - Z.of_nat q)) with (Z.of_nat q) by lia.
  unfold shr_record_of_loc, shr.
  destruct q as [|q].
  - cbn [Z.of_nat]. f_equal. lia.
  - cbn [Z.of_nat]. rewrite iter_pos_nat, SuccNat2Pos.id_succ.
    pose proof (shr_shl (S q) m 0) as H. rewrite Nat.add_0_r in H.
    change (shl m 0) with m in H. rewrite H. f_equal. lia.
Qed.

Lemma binary_round_aux_exact s m e q :
  Zpos (digits2_pos m) = 53 -> -1074 <= e <= 971 ->
  binary_round_aux prec emax s (Zpos (shl m q)) (e - Z.of_nat q) loc_Exact
  = S754_finite s m e.
Proof.
  intros Hm He. unfold binary_round_aux.
  rewrite (shr_fexp_exact m e q Hm) by lia.
  cbn [shr_m loc_of_shr_record round_nearest_even].
  pose proof (shr_fexp_exact m e 0 Hm) as H0.
  cbn [Z.of_nat] in H0. rewrite Z.sub_0_r in H0.
  change (shl m 0) with m in H0. rewrite H0 by lia.
  cbn [shr_m].
  destruct (Z.leb_spec e (emax - prec)) as [|Hn];
    [reflexivity | unfold emax, prec in Hn; lia].
Qed.

(** Rounding a number that needs no rounding. *)
Lemma binary_round_exact s p j :
  Zpos (digits2_pos p) <= 53 ->
  binary_round prec emax s (shl p j) (- Z.of_nat j) = canon s p.
Proof.
  intros Hd. unfold binary_round, canon.
  remember (Zpos (digits2_pos p)) as d eqn:Ed.
  assert (Hd1 : 1 <= d) by lia.
  rewrite digits_shl, <- Ed.
  replace (d + Z.of_nat j + - Z.of_nat j) with d by lia.
  assert (Hf : fexp prec emax d = d - 53).
  { unfold fexp, emin, prec, emax. lia. }
  rewrite Hf.
  assert (Hm : Zpos (digits2_pos (shl p (Z.to_nat (53 - d)))) = 53).
  { rewrite digits_shl, <- Ed. lia. }
  destruct (Z_lt_le_dec (d + Z.of_nat j) 53) as [Hlt|Hge].
  - rewrite shl_align_le by lia. rewrite shl_shl.
    replace (j + Z.to_nat (- Z.of_nat j - (d - 53)))%nat
      with (Z.to_nat (53 - d)) by lia.
    pose proof (binary_round_aux_exact s _ (d - 53) 0 Hm) as H.
    cbn [Z.of_nat] in H. rewrite Z.sub_0_r in H.
    change (shl ?x 0) with x in H. apply H. lia.
  - assert (Es : shl_align (shl p j) (- Z.of_nat j) (d - 53)
                 = (shl p j, - Z.of_nat j)).
    { unfold shl_align.
      destruct (d - 53 - - Z.of_nat j) eqn:E; try reflexivity. lia. }
    rewrite Es.
    pose proof (binary_round_aux_exact s _ (d - 53)
                  (j - Z.to_nat (53 - d)) Hm) as H.
    rewrite shl_shl in H.
    replace (Z.to_nat (53 - d) + (j - Z.to_nat (53 - d)))%nat with j in H
      by lia.
    replace (d - 53 - Z.of_nat (j - Z.to_nat (53 - d))) with (- Z.of_nat j)
      in H by lia.
    apply H. lia.
Qed.

Lemma valid_canon s p :
  Zpos (digits2_pos p) <= 53 -> SpecFloat.valid_binary prec emax (canon s p) = true.
Proof.
  intros Hd. unfold canon, SpecFloat.valid_binary, bounded, canonical_mantissa.
  rewrite digits_shl.
  replace (Z.pos (digits2_pos p) + Z.of_nat (Z.to_nat (53 - Z.pos (digits2_pos p)))
           + (Z.pos (digits2_pos p) - 53))
    with (53 + (Z.pos (digits2_pos p) - 53)) by lia.
  rewrite fexp_53 by lia. rewrite Z.eqb_refl. cbn [andb].
  apply Z.leb_le. unfold emax, prec. lia.
Qed.

Lemma binary_normalize_exact p j :
  Zpos (digits2_pos p) <= 53 ->
  binary_normalize prec emax (Zpos (shl p j)) (- Z.of_nat j) false
  = canon false p
  /\ binary_normalize prec emax (Zneg (shl p j)) (- Z.of_nat j) false
     = canon true p.
Proof.
  intros Hd. unfold binary_normalize. split; now apply binary_round_exact.
Qed.

Lemma Prim2SF_float_of_Z p :
  Zpos p < 2 ^ 53 -> Prim2SF (float_of_Z (Zpos p)) = canon false p.
Proof.
  intros Hp. apply digits_le_53 in Hp. unfold float_of_Z.
  destruct (binary_normalize_exact p 0 Hp) as [H _].
  change (shl p 0) with p in H. change (- Z.of_nat 0) with 0 in H.
  rewrite H. apply Prim2SF_SF2Prim. now apply valid_canon.
Qed.

Lemma SFadd_finite sx mx ex sy my ey :
  SFadd prec emax (S754_finite sx mx ex) (S754_finite sy my ey) =
  binary_normalize prec emax
    (cond_Zopp sx (Zpos (fst (shl_align mx ex (Z.min ex ey))))
     + cond_Zopp sy (Zpos (fst (shl_align my ey (Z.min ex ey)))))
    (Z.min ex ey) false.
Proof. reflexivity. Qed.

Lemma SFsub_finite sx mx ex sy my ey :
  SFsub prec emax (S754_finite sx mx ex) (S754_finite sy my ey) =
  binary_normalize prec emax
    (cond_Zopp sx (Zpos (fst (shl_align mx ex (Z.min ex ey))))
     - cond_Zopp sy (Zpos (fst (shl_align my ey (Z.min ex ey)))))
    (Z.min ex ey) false.
Proof. reflexivity. Qed.

Lemma Prim2SF_one : Prim2SF 1%float = canon false 1.
Proof. vm_compute. reflexivity. Qed.

Lemma Prim2SF_minus_one : Prim2SF (-1)%float = canon true 1.
Proof. vm_compute. reflexivity. Qed.

(** One more unit: the float of [p] plus 1.0 is the float of [p + 1]. *)
Lemma float_of_Z_succ p :
  Zpos p + 1 < 2 ^ 53 ->
  PrimFloat.add (float_of_Z (Zpos p)) 1%float = float_of_Z (Zpos p + 1).
Proof.
  intros Hp. apply Prim2SF_inj.
  rewrite add_spec, Prim2SF_one. unfold SF64add.
  change (Zpos p + 1) with (Zpos (p + 1)).
  rewrite !Prim2SF_float_of_Z by lia.
  assert (Hd : Zpos (digits2_pos p) <= 53) by (apply digits_le_53; lia).
  assert (Hd' : Zpos (digits2_pos (p + 1)) <= 53)
    by (apply digits_le_53; lia).
  unfold canon at 1 2. rewrite SFadd_finite.
  change (digits2_pos 1) with 1%positive.
  remember (Zpos (digits2_pos p)) as d eqn:Ed.
  assert (Hd1 : 1 <= d) by lia.
  replace (Z.min (d - 53) (1 - 53)) with (- Z.of_nat 52) by lia.
  rewrite !shl_align_le by lia. cbn [fst cond_Zopp]. rewrite !shl_shl.
  replace (Z.to_nat (53 - d) + Z.to_nat (d - 53 - - Z.of_nat 52))%nat
    with 52%nat by lia.
  replace (Z.to_nat (53 - 1) + Z.to_nat (1 - 53 - - Z.of_nat 52))%nat
    with 52%nat by lia.
  replace (Zpos (shl p 52) + Zpos (shl 1 52)) with (Zpos (shl (p + 1) 52)).
  - exact (proj1 (binary_normalize_exact (p + 1) 52 Hd')).
  - rewrite !Zpos_shl, Pos2Z.inj_add. ring.
Qed.

(** One unit back: the float of [p] minus the float of [p + 1] is -1.0. *)
Lemma float_of_Z_pred p :
  Zpos p + 1 < 2 ^ 53 ->
  PrimFloat.sub (float_of_Z (Zpos p)) (float_of_Z (Zpos p + 1))
  = (-1)%float.
Proof.
  intros Hp. apply Prim2SF_inj.
  rewrite sub_spec, Prim2SF_minus_one. unfold SF64sub.
  change (Zpos p + 1) with (Zpos (p + 1)).
  rewrite !Prim2SF_float_of_Z by lia.
  assert (Hd : Zpos (digits2_pos p) <= 53) by (apply digits_le_53; lia).
  assert (Hd' : Zpos (digits2_pos (p + 1)) <= 53)
    by (apply digits_le_53; lia).
  assert (Hm : Zpos (digits2_pos p) <= Zpos (digits2_pos (p + 1)))
    by (apply digits_mono; lia).
  unfold canon at 1 2. rewrite SFsub_finite.
  remember (Zpos (digits2_pos p)) as d eqn:Ed.
  remember (Zpos (digits2_pos (p + 1))) as d' eqn:Ed'.
  assert (Hd1 : 1 <= d) by lia.
  replace (Z.min (d - 53) (d' - 53)) with (d - 53) by lia.
  rewrite !shl_align_le by lia. cbn [fst cond_Zopp]. rewrite !shl_shl.
  replace (Z.to_nat (53 - d) + Z.to_nat (d - 53 - (d - 53)))%nat
    with (Z.to_nat (53 - d)) by lia.
  replace (Z.to_nat (53 - d') + Z.to_nat (d' - 53 - (d - 53)))%nat
    with (Z.to_nat (53 - d)) by lia.
  replace (Zpos (shl p (Z.to_nat (53 - d)))
           - Zpos (shl (p + 1) (Z.to_nat (53 - d))))
    with (Zneg (shl 1 (Z.to_nat (53 - d)))).
  - replace (d - 53) with (- Z.of_nat (Z.to_nat (53 - d))) by lia.
    refine (proj2 (binary_normalize_exact 1 _ _)).
    change (digits2_pos 1) with 1%positive. lia.
  - rewrite <- Pos2Z.opp_pos, !Zpos_shl, Pos2Z.inj_add. ring.
Qed.

(** No float of a positive integer is below 1.0. *)
Lemma float_of_Z_ge_one p :
  Zpos p < 2 ^ 53 ->
  PrimFloat.leb (PrimFloat.abs 1%float) (PrimFloat.abs (float_of_Z (Zpos p)))
  = true.
Proof.
  intros Hp. rewrite leb_spec, !abs_spec, Prim2SF_one.
  rewrite Prim2SF_float_of_Z by lia.
  assert (Hd : Zpos (digits2_pos p) <= 53) by (apply digits_le_53; lia).
  unfold canon, SFabs, SFleb, SFcompare.
  change (digits2_pos 1) with 1%positive.
  remember (Zpos (digits2_pos p)) as d eqn:Ed.
  assert (Hd1 : 1 <= d) by lia.
  destruct (Z.compare_spec (1 - 53) (d - 53)) as [E|E|E];
    [|reflexivity|lia].
  assert (H : d = 1) by lia.
  pose proof (digits_bounds p) as Hb. rewrite <- Ed, H in Hb.
  assert (p = 1%positive) by lia. subst p. rewrite H. reflexivity.
Qed.

Lemma ones_step_exact k :
  1 <= k -> k + 1 < 2 ^ 53 -> ones_step k = true.
Proof.
  intros H1 H2. destruct k as [|p|p]; try lia.
  unfold ones_step.
  rewrite float_of_Z_succ by lia.
  rewrite float_of_Z_ge_one by lia.
  rewrite float_of_Z_pred by lia.
  rewrite (proj2 (FloatAxioms.Leibniz.eqb_spec _ _) eq_refl).
  reflexivity.
Qed.

(** ** Sums of multiples of a power of two *)

Lemma binary_round_exact_at s p j e :
  Zpos (digits2_pos p) <= 53 -> -1022 <= e <= 971 ->
  binary_round prec emax s (shl p j) (e - Z.of_nat j) = canon_at s p e.
Proof.
  intros Hd He. unfold binary_round, canon_at.
  remember (Zpos (digits2_pos p)) as d eqn:Ed.
  assert (Hd1 : 1 <= d) by lia.
  rewrite digits_shl, <- Ed.
  replace (d + Z.of_nat j + (e - Z.of_nat j)) with (d + e) by lia.
  assert (Hf : fexp prec emax (d + e) = d - 53 + e).
  { unfold fexp, emin, prec, emax. lia. }
  rewrite Hf.
  assert (Hm : Zpos (digits2_pos (shl p (Z.to_nat (53 - d)))) = 53).
  { rewrite digits_shl, <- Ed. lia. }
  destruct (Z_lt_le_dec (d + Z.of_nat j) 53) as [Hlt|Hge].
  - rewrite shl_align_le by lia. rewrite shl_shl.
    replace (j + Z.to_nat (e - Z.of_nat j - (d - 53 + e)))%nat
      with (Z.to_nat (53 - d)) by lia.
    pose proof (binary_round_aux_exact s _ (d - 53 + e) 0 Hm) as H.
    cbn [Z.of_nat] in H. rewrite Z.sub_0_r in H.
    change (shl ?x 0) with x in H. apply H. lia.
  - assert (Es : shl_align (shl p j) (e - Z.of_nat j) (d - 53 + e)
                 = (shl p j, e - Z.of_nat j)).
    { unfold shl_align.
      destruct (d - 53 + e - (e - Z.of_nat j)) eqn:E; try reflexivity. lia. }
    rewrite Es.
    pose proof (binary_round_aux_exact s _ (d - 53 + e)
                  (j - Z.to_nat (53 - d)) Hm) as H.
    rewrite shl_shl in H.
    replace (Z.to_nat (53 - d) + (j - Z.to_nat (53 - d)))%nat with j in H
      by lia.
    replace (d - 53 + e - Z.of_nat (j - Z.to_nat (53 - d)))
      with (e - Z.of_nat j) in H by lia.
    apply H. lia.
Qed.

Lemma valid_canon_at s p e :
  Zpos (digits2_pos p) <= 53 -> -1022 <= e <= 971 ->
  SpecFloat.valid_binary prec emax (canon_at s p e) = true.
Proof.
  intros Hd He. unfold canon_at, SpecFloat.valid_binary, bounded,
    canonical_mantissa.
  rewrite digits_shl.
  replace (Z.pos (digits2_pos p)
           + Z.of_nat (Z.to_nat (53 - Z.pos (digits2_pos p)))
           + (Z.pos (digits2_pos p) - 53 + e))
    with (53 + (Z.pos (digits2_pos p) - 53 + e)) by lia.
  rewrite fexp_53 by lia. rewrite Z.eqb_refl. cbn [andb].
  apply Z.leb_le. unfold emax, prec. lia.
Qed.

Lemma binary_normalize_exact_at z j e :
  Z.abs z < 2 ^ 53 -> -1022 <= e <= 971 ->
  binary_normalize prec emax (z * 2 ^ Z.of_nat j) (e - Z.of_nat j) false
  = repr z e.
Proof.
  intros Hz He. destruct z as [|p|p]; [reflexivity| |]; cbn [repr].
  - assert (Hd : Zpos (digits2_pos p) <= 53) by (apply digits_le_53; lia).
    rewrite <- Zpos_shl. unfold binary_normalize.
    now apply binary_round_exact_at.
  - assert (Hd : Zpos (digits2_pos p) <= 53) by (apply digits_le_53; lia).
    replace (Z.neg p * 2 ^ Z.of_nat j) with (Zneg (shl p j)).
    + unfold binary_normalize. now apply binary_round_exact_at.
    + rewrite <- !Pos2Z.opp_pos, Zpos_shl. ring.
Qed.

Lemma Prim2SF_dyadic z e :
  Z.abs z < 2 ^ 53 -> -1022 <= e <= 971 ->
  Prim2SF (dyadic z e) = repr z e.
Proof.
  intros Hz He. unfold dyadic.
  pose proof (binary_normalize_exact_at z 0 e Hz He) as H.
  cbn [Z.of_nat] in H. rewrite Z.sub_0_r in H.
  replace (z * 2 ^ 0) with z in H by (simpl; lia).
  rewrite H. apply Prim2SF_SF2Prim.
  destruct z as [|p|p]; [reflexivity| |];
    apply valid_canon_at; try lia; apply digits_le_53; lia.
Qed.

Lemma repr_finite z e :
  z <> 0 ->
  repr z e = S754_finite (sign_of z)
               (shl (Z.to_pos (Z.abs z))
                  (Z.to_nat (53 - Zpos (digits2_pos (Z.to_pos (Z.abs z))))))
               (Zpos (digits2_pos (Z.to_pos (Z.abs z))) - 53 + e).
Proof. destruct z; [congruence | reflexivity | reflexivity]. Qed.

Lemma aligned z e k :
  z <> 0 -> Z.abs z < 2 ^ 53 ->
  53 - Zpos (digits2_pos (Z.to_pos (Z.abs z))) <= Z.of_nat k ->
  cond_Zopp (sign_of z)
    (Zpos (fst (shl_align
                  (shl (Z.to_pos (Z.abs z))
                     (Z.to_nat (53 - Zpos (digits2_pos (Z.to_pos (Z.abs z))))))
                  (Zpos (digits2_pos (Z.to_pos (Z.abs z))) - 53 + e)
                  (e - Z.of_nat k))))
  = z * 2 ^ Z.of_nat k.
Proof.
  intros Hz Hb Hk.
  remember (Z.to_pos (Z.abs z)) as p eqn:Ep.
  assert (Hd : Zpos (digits2_pos p) <= 53).
  { apply digits_le_53. subst p. rewrite Z2Pos.id; lia. }
  remember (Zpos (digits2_pos p)) as d eqn:Ed.
  assert (Hd1 : 1 <= d) by lia.
  rewrite shl_align_le by lia. cbn [fst]. rewrite shl_shl.
  replace (Z.to_nat (53 - d) + Z.to_nat (d - 53 + e - (e - Z.of_nat k)))%nat
    with k by lia.
  rewrite Zpos_shl.
  assert (Hp : Zpos p = Z.abs z) by (subst p; rewrite Z2Pos.id; lia).
  rewrite Hp. destruct z as [|q|q]; [congruence| |]; cbn [sign_of cond_Zopp].
  - simpl Z.abs. reflexivity.
  - simpl Z.abs. rewrite <- Pos2Z.opp_pos. ring.
Qed.

Lemma SFadd_repr a b e :
  Z.abs a < 2 ^ 53 -> Z.abs b < 2 ^ 53 -> Z.abs (a + b) < 2 ^ 53 ->
  -1022 <= e <= 971 ->
  SFadd prec emax (repr a e) (repr b e) = repr (a + b) e.
Proof.
  intros Ha Hb Hab He.
  destruct (Z.eq_dec a 0) as [->|Na].
  { now destruct b. }
  destruct (Z.eq_dec b 0) as [->|Nb].
  { rewrite Z.add_0_r. now destruct a. }
  rewrite (repr_finite a e Na), (repr_finite b e Nb), SFadd_finite.
  remember (Z.to_pos (Z.abs a)) as p eqn:Ep.
  remember (Z.to_pos (Z.abs b)) as q eqn:Eq.
  assert (Hdp : Zpos (digits2_pos p) <= 53).
  { apply digits_le_53. subst p. rewrite Z2Pos.id; lia. }
  assert (Hdq : Zpos (digits2_pos q) <= 53).
  { apply digits_le_53. subst q. rewrite Z2Pos.id; lia. }
  set (k := Z.to_nat (53 - Z.min (Zpos (digits2_pos p)) (Zpos (digits2_pos q)))).
  replace (Z.min (Zpos (digits2_pos p) - 53 + e) (Zpos (digits2_pos q) - 53 + e))
    with (e - Z.of_nat k) by (unfold k; lia).
  subst p q.
  rewrite (aligned a e k Na Ha), (aligned b e k Nb Hb).
  - replace (a * 2 ^ Z.of_nat k + b * 2 ^ Z.of_nat k)
      with ((a + b) * 2 ^ Z.of_nat k) by ring.
    now apply binary_normalize_exact_at.
  - unfold k. lia.
  - unfold k. lia.
Qed.

Lemma SFsub_repr a b e :
  Z.abs a < 2 ^ 53 -> Z.abs b < 2 ^ 53 -> Z.abs (a - b) < 2 ^ 53 ->
  -1022 <= e <= 971 ->
  SFsub prec emax (repr a e) (repr b e) = repr (a - b) e.
Proof.
  intros Ha Hb Hab He.
  destruct (Z.eq_dec a 0) as [->|Na].
  { now destruct b. }
  destruct (Z.eq_dec b 0) as [->|Nb].
  { rewrite Z.sub_0_r. now destruct a. }
  rewrite (repr_finite a e Na), (repr_finite b e Nb), SFsub_finite.
  remember (Z.to_pos (Z.abs a)) as p eqn:Ep.
  remember (Z.to_pos (Z.abs b)) as q eqn:Eq.
  assert (Hdp : Zpos (digits2_pos p) <= 53).
  { apply digits_le_53. subst p. rewrite Z2Pos.id; lia. }
  assert (Hdq : Zpos (digits2_pos q) <= 53).
  { apply digits_le_53. subst q. rewrite Z2Pos.id; lia. }
  set (k := Z.to_nat (53 - Z.min (Zpos (digits2_pos p)) (Zpos (digits2_pos q)))).
  replace (Z.min (Zpos (digits2_pos p) - 53 + e) (Zpos (digits2_pos q) - 53 + e))
    with (e - Z.of_nat k) by (unfold k; lia).
  subst p q.
  rewrite (aligned a e k Na Ha), (aligned b e k Nb Hb).
  - replace (a * 2 ^ Z.of_nat k - b * 2 ^ Z.of_nat k)
      with ((a - b) * 2 ^ Z.of_nat k) by ring.
    now apply binary_normalize_exact_at.
  - unfold k. lia.
  - unfold k. lia.
Qed.

(** Adding two multiples of [2^e] whose sum has no more than 53 binary
    digits is exact. *)
Lemma dyadic_add a b e :
  Z.abs a < 2 ^ 53 -> Z.abs b < 2 ^ 53 -> Z.abs (a + b) < 2 ^ 53 ->
  -1022 <= e <= 971 ->
  PrimFloat.add (dyadic a e) (dyadic b e) = dyadic (a + b) e.
Proof.
  intros Ha Hb Hab He. apply Prim2SF_inj.
  rewrite add_spec. unfold SF64add.
  rewrite !Prim2SF_dyadic by assumption. now apply SFadd_repr.
Qed.

Lemma dyadic_sub a b e :
  Z.abs a < 2 ^ 53 -> Z.abs b < 2 ^ 53 -> Z.abs (a - b) < 2 ^ 53 ->
  -1022 <= e <= 971 ->
  PrimFloat.sub (dyadic a e) (dyadic b e) = dyadic (a - b) e.
Proof.
  intros Ha Hb Hab He. apply Prim2SF_inj.
  rewrite sub_spec. unfold SF64sub.
  rewrite !Prim2SF_dyadic by assumption. now apply SFsub_repr.
Qed.

Lemma abs_sum_nonneg zs : 0 <= abs_sum zs.
Proof. induction zs as [|z r IH]; simpl; lia. Qed.

Lemma int_sum_le_abs_sum zs : Z.abs (int_sum zs) <= abs_sum zs.
Proof. induction zs as [|z r IH]; simpl; lia. Qed.

Lemma int_sum_perm l l' : Permutation l l' -> int_sum l = int_sum l'.
Proof. induction 1; simpl; lia. Qed.

Lemma abs_sum_perm l l' : Permutation l l' -> abs_sum l = abs_sum l'.
Proof. induction 1; simpl; lia. Qed.

Lemma dyadic_zero e : dyadic 0 e = PrimFloat.zero.
Proof. reflexivity. Qed.

Lemma fold_left_dyadic e r : forall s,
  -1022 <= e <= 971 -> Z.abs s + abs_sum r < 2 ^ 53 ->
  fold_left PrimFloat.add (map (fun z => dyadic z e) r) (dyadic s e)
  = dyadic (s + int_sum r) e.
Proof.
  induction r as [|x r IH]; intros s He Hb; simpl in *.
  - now rewrite Z.add_0_r.
  - pose proof (abs_sum_nonneg r). pose proof (int_sum_le_abs_sum r).
    rewrite dyadic_add by lia. rewrite IH by lia. f_equal. lia.
Qed.

Lemma neumaier_dyadic e r : forall s,
  -1022 <= e <= 971 -> Z.abs s + abs_sum r < 2 ^ 53 ->
  neumaier (dyadic s e) PrimFloat.zero (map (fun z => dyadic z e) r)
  = dyadic (s + int_sum r) e.
Proof.
  induction r as [|x r IH]; intros s He Hb; simpl in *.
  - now rewrite Z.add_0_r.
  - pose proof (abs_sum_nonneg r). pose proof (int_sum_le_abs_sum r).
    rewrite !dyadic_add by lia.
    rewrite !dyadic_sub by lia.
    rewrite !dyadic_add by lia.
    replace (s - (s + x) + x) with 0 by lia.
    replace (x - (s + x) + s) with 0 by lia.
    rewrite dyadic_zero.
    replace (PrimFloat.add PrimFloat.zero PrimFloat.zero) with PrimFloat.zero
      by reflexivity.
    destruct (PrimFloat.leb (PrimFloat.abs (dyadic x e))
                (PrimFloat.abs (dyadic s e)));
      (rewrite IH by lia; f_equal; lia).
Qed.

Lemma sum_dyadic impl e zs :
  -1022 <= e <= 971 -> abs_sum zs < 2 ^ 53 ->
  sum impl (map (fun z => dyadic z e) zs)
  = match zs with
    | [] => PyInt 0
    | _ => PyFloat (dyadic (int_sum zs) e)
    end.
Proof.
  intros He Hb. destruct zs as [|x r]; [reflexivity|].
  cbn [map sum]. simpl in Hb. pose proof (abs_sum_nonneg r).
  change (float_of_Z 0) with (dyadic 0 e).
  rewrite dyadic_add by lia. cbn [Z.add].
  destruct impl.
  - rewrite fold_left_dyadic by lia. reflexivity.
  - rewrite neumaier_dyadic by lia. reflexivity.
Qed.

Lemma to_float_sum_dyadic impl e zs :
  -1022 <= e <= 971 -> abs_sum zs < 2 ^ 53 ->
  to_float (sum impl (map (fun z => dyadic z e) zs)) = dyadic (int_sum zs) e.
Proof.
  intros He Hb. rewrite sum_dyadic by assumption.
  now destruct zs.
Qed.

(** An exact sum is the same in every order. *)
Lemma sum_dyadic_perm impl e zs ws ws' :
  -1022 <= e <= 971 -> abs_sum zs < 2 ^ 53 ->
  ws = map (fun z => dyadic z e) zs ->
  Permutation ws ws' ->
  sum impl ws' = sum impl ws.
Proof.
  intros He Hb -> Hp.
  destruct (Permutation_map_inv _ _ (Permutation_sym Hp)) as [zs' [-> Hz]].
  rewrite !sum_dyadic; try assumption.
  - rewrite (int_sum_perm _ _ Hz).
    destruct zs as [|z r], zs' as [|z' r']; try reflexivity.
    + apply Permutation_nil in Hz. discriminate.
    + symmetry in Hz. apply Permutation_nil in Hz. discriminate.
  - now rewrite <- (abs_sum_perm _ _ Hz).
Qed.

End PyFacts.

(* ================================================================== *)
(** * Facts about dicts and graphs *)
(* ================================================================== *)

Module NxFacts.

Import Py Nx.

Section DictFacts.
Context {V : Type}.
Implicit Types (d : dict V) (k : Z) (v : V).

Lemma get_set_eq k v d : get k (set k v d) = Some v.
Proof.
  induction d as [|[k' v'] r IH]; simpl.
  - now rewrite Z.eqb_refl.
  - destruct (Z.eqb_spec k k'); simpl.
    + now rewrite Z.eqb_refl.
    + destruct (Z.eqb_spec k k'); [contradiction | exact IH].
Qed.

Lemma get_set_neq k k' v d : k <> k' -> get k' (set k v d) = get k' d.
Proof.
  intros Hne. induction d as [|[k0 v0] r IH]; simpl.
  - destruct (Z.eqb_spec k' k); [congruence | reflexivity].
  - destruct (Z.eqb_spec k k0) as [->|Hk]; simpl.
    + destruct (Z.eqb_spec k' k0); [congruence | reflexivity].
    + destruct (Z.eqb_spec k' k0); [reflexivity | exact IH].
Qed.

Lemma get_None_keys k d : get k d = None <-> ~ In k (keys d).
Proof.
  induction d as [|[k0 v0] r IH]; simpl.
  - tauto.
  - destruct (Z.eqb_spec k k0) as [->|Hk].
    + split; [discriminate | intros H; exfalso; apply H; now left].
    + rewrite IH. split; intros H; [intros [E|E]|]; try congruence; tauto.
Qed.

Lemma get_Some_In k v d : get k d = Some v -> In (k, v) d.
Proof.
  induction d as [|[k0 v0] r IH]; simpl; [discriminate|].
  destruct (Z.eqb_spec k k0) as [->|Hk].
  - intros [= ->]. now left.
  - intros H. right. now apply IH.
Qed.

Lemma In_get_Some k v d : NoDup (keys d) -> In (k, v) d -> get k d = Some v.
Proof.
  induction d as [|[k0 v0] r IH]; simpl; [tauto|].
  intros Hnd [E|Hin].
  - injection E as -> ->. now rewrite Z.eqb_refl.
  - inversion Hnd as [|? ? Hk0 Hr]; subst.
    destruct (Z.eqb_spec k k0) as [->|Hk].
    + exfalso. apply Hk0. change k0 with (fst (k0, v)). now apply in_map.
    + now apply IH.
Qed.

Lemma keys_set k v d :
  keys (set k v d) = if mem k d then keys d else keys d ++ [k].
Proof.
  unfold mem. induction d as [|[k0 v0] r IH]; simpl; [reflexivity|].
  destruct (Z.eqb_spec k k0) as [->|Hk]; simpl; [reflexivity|].
  rewrite IH. now destruct (get k r).
Qed.

Lemma NoDup_keys_set k v d : NoDup (keys d) -> NoDup (keys (set k v d)).
Proof.
  intros Hnd. rewrite keys_set. unfold mem.
  destruct (get k d) eqn:E; [exact Hnd|].
  apply get_None_keys in E.
  apply NoDup_rev in Hnd. rewrite <- (rev_involutive (keys d ++ [k])).
  apply NoDup_rev. rewrite rev_app_distr. simpl. constructor; [|exact Hnd].
  now rewrite <- in_rev.
Qed.

Lemma mem_true_keys k d : mem k d = true <-> In k (keys d).
Proof.
  unfold mem. pose proof (get_None_keys k d) as H.
  destruct (get k d).
  - split; [intros _|reflexivity].
    destruct (in_dec Z.eq_dec k (keys d)) as [Hi|Hn]; [exact Hi|].
    apply H in Hn. discriminate.
  - split; [discriminate|]. intros Hi. exfalso. now apply H.
Qed.
End DictFacts.
(** ** [add_edge] as a map update *)

Lemma nbrs_set a u nb (G : Graph) :
  nbrs a (set u nb G) = if a =? u then nb else nbrs a G.
Proof.
  unfold nbrs. destruct (Z.eqb_spec a u) as [->|Hne].
  - now rewrite get_set_eq.
  - rewrite get_set_neq by congruence. reflexivity.
Qed.

Lemma nbrs_add_node a u (G : Graph) : nbrs a (add_node u G) = nbrs a G.
Proof.
  unfold add_node, mem. destruct (get u G) eqn:E; [reflexivity|].
  rewrite nbrs_set. destruct (Z.eqb_spec a u) as [->|Hne]; [|reflexivity].
  unfold nbrs. now rewrite E.
Qed.

Lemma same_pair_sym p q : same_pair p q = same_pair q p.
Proof.
  unfold same_pair.
  destruct (Z.eqb_spec (fst p) (fst q)), (Z.eqb_spec (snd p) (snd q)),
    (Z.eqb_spec (fst p) (snd q)), (Z.eqb_spec (snd p) (fst q)),
    (Z.eqb_spec (fst q) (fst p)), (Z.eqb_spec (snd q) (snd p)),
    (Z.eqb_spec (fst q) (snd p)), (Z.eqb_spec (snd q) (fst p));
    simpl; try reflexivity; congruence.
Qed.

Lemma same_pair_swap a b q : same_pair (a, b) q = same_pair (b, a) q.
Proof.
  unfold same_pair; simpl.
  destruct (a =? fst q), (b =? snd q), (a =? snd q), (b =? fst q);
    reflexivity.
Qed.

Lemma same_pair_norm p q : same_pair p q = true <-> norm p = norm q.
Proof.
  destruct p as [a b], q as [c d]. unfold same_pair, norm; simpl.
  rewrite orb_true_iff, !andb_true_iff, !Z.eqb_eq.
  split.
  - intros [[? ?]|[? ?]]; subst; f_equal; lia.
  - intros [= H1 H2]. lia.
Qed.

(** The attribute dict of every pair after [add_edge u v w]: the pair
    [u]-[v], in either direction, holds the updated dict; every other pair
    is as before. *)
Lemma get_edge_data_add_edge a b u v w (G : Graph) :
  get_edge_data a b (add_edge u v w G) =
  if same_pair (a, b) (u, v)
  then Some (updated w (get_edge_data u v G))
  else get_edge_data a b G.
Proof.
  unfold add_edge, get_edge_data, same_pair; simpl.
  rewrite !nbrs_set, !nbrs_add_node.
  destruct (Z.eqb_spec a v) as [Eav|Hav], (Z.eqb_spec a u) as [Eau|Hau],
    (Z.eqb_spec b v) as [Ebv|Hbv], (Z.eqb_spec b u) as [Ebu|Hbu];
    subst; simpl;
    repeat first
      [ rewrite Z.eqb_refl
      | rewrite get_set_eq
      | rewrite nbrs_set
      | rewrite nbrs_add_node
      | rewrite get_set_neq by congruence
      | match goal with
        | |- context [Z.eqb ?x ?y] =>
            destruct (Z.eqb_spec x y); [congruence|]
        end ];
    try reflexivity; try congruence.
Qed.

(** ** The invariant of [add_edge] *)

Lemma mem_set a u nb (G : Graph) : mem a (set u nb G) = (a =? u) || mem a G.
Proof.
  unfold mem. destruct (Z.eqb_spec a u) as [->|Hne].
  - now rewrite get_set_eq.
  - rewrite get_set_neq by congruence. reflexivity.
Qed.

Lemma mem_add_node a u (G : Graph) :
  mem a (add_node u G) = (a =? u) || mem a G.
Proof.
  unfold add_node. destruct (mem u G) eqn:E.
  - destruct (Z.eqb_spec a u) as [->|Hne]; [now rewrite E | reflexivity].
  - apply mem_set.
Qed.

Lemma NoDup_keys_add_node u (G : Graph) :
  NoDup (keys G) -> NoDup (keys (add_node u G)).
Proof.
  intros H. unfold add_node. destruct (mem u G); [exact H|].
  now apply NoDup_keys_set.
Qed.

Lemma keys_set_mem {V} k (v : V) d : mem k d = true -> keys (set k v d) = keys d.
Proof. intros H. rewrite keys_set. now rewrite H. Qed.

Lemma keys_add_edge u v w (G : Graph) :
  keys (add_edge u v w G) = keys (add_node v (add_node u G)).
Proof.
  unfold add_edge. rewrite !keys_set_mem; [reflexivity| |].
  - rewrite mem_add_node, mem_add_node, Z.eqb_refl. now rewrite orb_true_r.
  - rewrite mem_set, mem_add_node, Z.eqb_refl. now rewrite orb_true_r.
Qed.

Lemma wf_empty : wf empty.
Proof.
  split; intros; simpl; constructor.
Qed.

Lemma wf_add_edge u v w (G : Graph) : wf G -> wf (add_edge u v w G).
Proof.
  intros [Hk Hi Hs]. split.
  - rewrite keys_add_edge. now apply NoDup_keys_add_node, NoDup_keys_add_node.
  - intros a. unfold add_edge. rewrite !nbrs_set, !nbrs_add_node.
    destruct (a =? v), (v =? u), (a =? u);
      repeat apply NoDup_keys_set; apply Hi.
  - intros a b. rewrite !get_edge_data_add_edge.
    rewrite (same_pair_swap b a). now rewrite (Hs a b).
Qed.

(** ** The iteration of the edges *)

Lemma memb_true k l : memb k l = true <-> In k l.
Proof.
  unfold memb. rewrite existsb_exists. split.
  - intros [x [Hx E]]. apply Z.eqb_eq in E. now subst.
  - intros H. exists k. split; [exact H | apply Z.eqb_refl].
Qed.

Lemma memb_false k l : memb k l = false <-> ~ In k l.
Proof.
  rewrite <- memb_true. destruct (memb k l); split; congruence.
Qed.

(** What the iteration yields: an entry of the dict of dicts whose
    neighbour has not had its own turn yet. *)
Lemma in_edges_from a b d seen (adj : Graph) :
  In (a, b, d) (edges_from seen adj) ->
  exists nb, In (a, nb) adj /\ In (b, d) nb /\ ~ In b seen.
Proof.
  revert seen. induction adj as [|[n nb] rest IH]; intros seen; simpl.
  - tauto.
  - rewrite in_app_iff, in_map_iff. intros [[[b' d'] [E Hin]]|Hin].
    + simpl in E. injection E as -> -> ->.
      apply filter_In in Hin. destruct Hin as [Hin Hseen]. simpl in Hseen.
      exists nb. repeat split; [now left | exact Hin |].
      apply memb_false. now destruct (memb b seen).
    + destruct (IH _ Hin) as [nb' [H1 [H2 H3]]].
      exists nb'. repeat split; [now right | exact H2 |].
      intros H. apply H3. now right.
Qed.

Lemma in_edges_from_later a b d seen (adj : Graph) :
  In (a, b, d) (edges_from seen adj) -> In a (keys adj).
Proof.
  intros H. destruct (in_edges_from _ _ _ _ _ H) as [nb [H1 _]].
  change a with (fst (a, nb)). now apply in_map.
Qed.

(** Every edge has its turn, from one end or from the other. *)
Lemma edges_from_complete (adj : Graph) : forall seen,
  NoDup (keys adj) ->
  (forall x, In x seen -> ~ In x (keys adj)) ->
  forall a b nba nbb d,
    In (a, nba) adj -> In (b, d) nba ->
    In (b, nbb) adj -> In (a, d) nbb ->
    In (a, b, d) (edges_from seen adj) \/ In (b, a, d) (edges_from seen adj).
Proof.
  induction adj as [|[n nb] rest IH]; intros seen Hnd Hseen a b nba nbb d
    Ha Hb Hb' Ha'; simpl in *; [tauto|].
  inversion Hnd as [|? ? Hn Hrest]; subst.
  assert (Hkeys : forall x y (nx : dict datadict),
             (n, nb) = (x, nx) \/ In (x, nx) rest ->
             In y seen -> x = y -> False).
  { intros x y nx Hx Hy ->. apply (Hseen y Hy).
    destruct Hx as [E|Hx]; [injection E as -> _; now left|].
    right. change y with (fst (y, nx)). now apply in_map. }
  destruct Ha as [E|Ha].
  - injection E as -> ->. left. apply in_or_app. left.
    apply in_map_iff. exists (b, d). split; [reflexivity|].
    apply filter_In. split; [exact Hb|]. simpl.
    destruct (memb b seen) eqn:M; [|reflexivity].
    apply memb_true in M. exfalso. exact (Hkeys b b nbb Hb' M eq_refl).
  - destruct Hb' as [E|Hb'].
    + injection E as -> ->. right. apply in_or_app. left.
      apply in_map_iff. exists (a, d). split; [reflexivity|].
      apply filter_In. split; [exact Ha'|]. simpl.
      destruct (memb a seen) eqn:M; [|reflexivity].
      apply memb_true in M. exfalso.
      exact (Hkeys a a nba (or_intror Ha) M eq_refl).
    + assert (Hseen' : forall x, In x (n :: seen) -> ~ In x (keys rest)).
      { intros x [<-|Hx]; [exact Hn|].
        intros Hin. apply (Hseen x Hx). now right. }
      destruct (IH (n :: seen) Hrest Hseen' a b nba nbb d Ha Hb Hb' Ha');
        [left | right]; apply in_or_app; now right.
Qed.

Lemma norm_fst_inj n b c : norm (n, b) = norm (n, c) -> b = c.
Proof. unfold norm; simpl. intros [= H1 H2]. lia. Qed.

(** No unordered pair has two turns. *)
Lemma NoDup_edges_from (adj : Graph) : forall seen,
  NoDup (keys adj) ->
  (forall n nb, In (n, nb) adj -> NoDup (keys nb)) ->
  NoDup (map (fun e => norm (fst e)) (edges_from seen adj)).
Proof.
  induction adj as [|[n nb] rest IH]; intros seen Hnd Hinner; simpl.
  - constructor.
  - inversion Hnd as [|? ? Hn Hrest]; subst.
    rewrite map_app, map_map. simpl.
    apply NoDup_app.
    + assert (Hnb : NoDup (keys nb)) by (apply (Hinner n); now left).
      clear -Hnb. induction nb as [|[b d] r IHr]; simpl; [constructor|].
      inversion Hnb as [|? ? Hb Hr]; subst.
      destruct (negb (memb b seen)); [|now apply IHr].
      simpl. constructor; [|now apply IHr].
      rewrite in_map_iff. intros [[c d'] [E Hin]]. simpl in E.
      apply norm_fst_inj in E. subst c.
      apply filter_In in Hin. destruct Hin as [Hin _].
      apply Hb. change b with (fst (b, d')). now apply in_map.
    + apply IH; [exact Hrest|]. intros m nb' H. apply (Hinner m). now right.
    + intros p Hp Hq.
      apply in_map_iff in Hp. destruct Hp as [[b d] [E _]]. simpl in E.
      apply in_map_iff in Hq. destruct Hq as [[[m c] d'] [E' Hin]].
      simpl in E'. subst p.
      pose proof (in_edges_from_later _ _ _ _ _ Hin) as Hm.
      destruct (in_edges_from _ _ _ _ _ Hin) as [_ [_ [_ Hc]]].
      apply same_pair_norm in E'. unfold same_pair in E'. simpl in E'.
      rewrite orb_true_iff, !andb_true_iff, !Z.eqb_eq in E'.
      destruct E' as [[-> _]|[_ ->]].
      * now apply Hn.
      * apply Hc. now left.
Qed.

(** ** The edges of a well-formed graph *)

Lemma get_edge_data_Some a b d (G : Graph) :
  get_edge_data a b G = Some d ->
  exists nb, get a G = Some nb /\ get b nb = Some d.
Proof.
  unfold get_edge_data, nbrs. destruct (get a G) as [nb|]; simpl.
  - intros H. now exists nb.
  - discriminate.
Qed.

Lemma edges_sound a b d (G : Graph) :
  wf G -> In (a, b, d) (edges G) -> get_edge_data a b G = Some d.
Proof.
  intros [Hk Hi _] Hin.
  destruct (in_edges_from _ _ _ _ _ Hin) as [nb [Ha [Hb _]]].
  apply (In_get_Some _ _ _ Hk) in Ha.
  specialize (Hi a). unfold get_edge_data, nbrs in *. rewrite Ha in *.
  now apply In_get_Some.
Qed.

Lemma edges_complete a b d (G : Graph) :
  wf G -> get_edge_data a b G = Some d ->
  In (a, b, d) (edges G) \/ In (b, a, d) (edges G).
Proof.
  intros [Hk Hi Hs] Hab.
  assert (Hba : get_edge_data b a G = Some d) by now rewrite Hs.
  apply get_edge_data_Some in Hab, Hba.
  destruct Hab as [nba [Ha Hb]], Hba as [nbb [Hb' Ha']].
  apply (edges_from_complete G [] Hk) with (nba := nba) (nbb := nbb);
    auto using get_Some_In.
Qed.

Lemma NoDup_edges (G : Graph) :
  wf G -> NoDup (map (fun e => norm (fst e)) (edges G)).
Proof.
  intros [Hk Hi _]. apply NoDup_edges_from; [exact Hk|].
  intros n nb Hin. apply (In_get_Some _ _ _ Hk) in Hin.
  specialize (Hi n). unfold nbrs in Hi. now rewrite Hin in Hi.
Qed.

(** In a list whose images under [f] are all different, the elements with
    the image of [x] are [x] alone. *)
Lemma filter_unique {A B} (f : A -> B) (test : A -> bool) (x : A) l :
  NoDup (map f l) -> In x l ->
  (forall y, test y = true <-> f y = f x) ->
  filter test l = [x].
Proof.
  intros Hnd Hin Htest. induction l as [|y r IH]; simpl in *; [tauto|].
  inversion Hnd as [|? ? Hy Hr]; subst.
  destruct Hin as [->|Hin].
  - assert (E : test x = true) by now apply Htest.
    rewrite E. f_equal.
    clear -Hy Htest. induction r as [|z r IHr]; simpl; [reflexivity|].
    destruct (test z) eqn:T.
    + exfalso. apply Hy. left. now apply Htest.
    + apply IHr. intros H. apply Hy. now right.
  - destruct (test y) eqn:T.
    + exfalso. apply Hy. apply Htest in T. rewrite T. now apply in_map.
    + now apply IH.
Qed.

(** An edge of the graph is listed exactly once, under one of its two
    orientations. *)
Lemma edges_filter_pair u v d (G : Graph) :
  wf G -> get_edge_data u v G = Some d ->
  exists a b,
    same_pair (a, b) (u, v) = true /\
    filter (fun e => same_pair (fst e) (u, v)) (edges G) = [(a, b, d)].
Proof.
  intros Hwf Hd.
  destruct (edges_complete _ _ _ _ Hwf Hd) as [Hin|Hin];
    [exists u, v | exists v, u]; (split; [|
      apply (filter_unique (fun e => norm (fst e)) _ _ _
               (NoDup_edges _ Hwf) Hin);
      intros [[a b] d']; simpl; rewrite same_pair_norm;
      unfold norm; simpl; split; intros [= H1 H2]; f_equal; lia ]).
  - unfold same_pair; simpl. now rewrite !Z.eqb_refl.
  - unfold same_pair; simpl. rewrite !Z.eqb_refl. now rewrite orb_true_r.
Qed.

End NxFacts.

(* ================================================================== *)
(** * Facts about the script *)
(* ================================================================== *)

Module ScriptFacts.

Import Py Nx Script PyFacts NxFacts.
Local Open Scope string_scope.

(** ** Loading *)

Lemma load_lines_app weighted l1 l2 G :
  load_lines weighted (l1 ++ l2)%list G =
  match load_lines weighted l1 G with
  | Ok G1 => load_lines weighted l2 G1
  | Raise e => Raise e
  end.
Proof.
  revert G. induction l1 as [|l r IH]; intros G; simpl; [reflexivity|].
  destruct (parse_line weighted l) as [[[w a] b]|e]; [apply IH | reflexivity].
Qed.

Lemma load_lines_Ok_inv weighted lines : forall G0 G,
  load_lines weighted lines G0 = Ok G ->
  exists ts,
    Forall2 (fun l t => parse_line weighted l = Ok t) lines ts /\
    G = fold_left add_parsed ts G0.
Proof.
  induction lines as [|l r IH]; intros G0 G; simpl.
  - intros [= <-]. exists []. split; [constructor | reflexivity].
  - destruct (parse_line weighted l) as [[[w a] b]|e] eqn:E; [|discriminate].
    intros H. destruct (IH _ _ H) as [ts [H1 H2]].
    exists ((w, a, b) :: ts). split; [now constructor | exact H2].
Qed.

Lemma load_lines_fold weighted lines ts G0 :
  Forall2 (fun l t => parse_line weighted l = Ok t) lines ts ->
  load_lines weighted lines G0 = Ok (fold_left add_parsed ts G0).
Proof.
  intros H. revert G0. induction H as [|l t r ts Hl _ IH]; intros G0; simpl.
  - reflexivity.
  - rewrite Hl. destruct t as [[w a] b]. apply IH.
Qed.

Lemma wf_fold ts : forall G0, wf G0 -> wf (fold_left add_parsed ts G0).
Proof.
  induction ts as [|t r IH]; intros G0 H; simpl; [exact H|].
  apply IH. now apply wf_add_edge.
Qed.

Lemma load_lines_wf weighted lines G0 G :
  wf G0 -> load_lines weighted lines G0 = Ok G -> wf G.
Proof.
  intros H0 H. destruct (load_lines_Ok_inv _ _ _ _ H) as [ts [_ ->]].
  now apply wf_fold.
Qed.

Lemma load_graph_wf read path weighted G :
  load_graph read path weighted = Ok G -> wf G.
Proof.
  unfold load_graph. destruct (read path) as [lines|]; [|discriminate].
  apply load_lines_wf, wf_empty.
Qed.

(** Each line of a file that loads has its parsed form, in order. *)
Lemma Forall2_In_l {A B} (P : A -> B -> Prop) l ts x :
  Forall2 P l ts -> In x l -> exists t, In t ts /\ P x t.
Proof.
  induction 1 as [|a t l ts Hat _ IH]; simpl; [contradiction|].
  intros [<-|Hin].
  - exists t. split; [now left | exact Hat].
  - destruct (IH Hin) as [t' [H1 H2]]. exists t'. split; [now right | exact H2].
Qed.

(** Lines about other pairs leave an edge as it is. *)
Lemma get_edge_data_fold_other u v ts : forall G0,
  Forall (fun t => same_pair (pair_of t) (u, v) = false) ts ->
  get_edge_data u v (fold_left add_parsed ts G0) = get_edge_data u v G0.
Proof.
  induction ts as [|t r IH]; intros G0 H; simpl; [reflexivity|].
  inversion H as [|? ? Ht Hr]; subst.
  rewrite (IH _ Hr). unfold add_parsed. rewrite get_edge_data_add_edge.
  rewrite same_pair_sym. unfold pair_of in Ht. now rewrite Ht.
Qed.

(** An edge is there exactly when some line named its pair. *)
Lemma get_edge_data_fold_iff a b ts : forall G0,
  is_some (get_edge_data a b (fold_left add_parsed ts G0)) =
  is_some (get_edge_data a b G0)
  || existsb (fun t => same_pair (a, b) (pair_of t)) ts.
Proof.
  induction ts as [|t r IH]; intros G0; simpl.
  - now rewrite orb_false_r.
  - rewrite IH. unfold add_parsed. rewrite get_edge_data_add_edge.
    unfold pair_of. destruct (same_pair (a, b) (snd (fst t), snd t)); simpl.
    + now rewrite orb_true_r.
    + reflexivity.
Qed.

(** Every weight is one of the weights read. *)
Lemma weight_fold (P : PrimFloat.float -> Prop) ts : forall G0,
  (forall a b d, get_edge_data a b G0 = Some d -> P (weight d)) ->
  Forall (fun t => P (fst (fst t))) ts ->
  forall a b d,
    get_edge_data a b (fold_left add_parsed ts G0) = Some d -> P (weight d).
Proof.
  induction ts as [|t r IH]; intros G0 H0 Hts; simpl; [exact H0|].
  inversion Hts as [|? ? Ht Hr]; subst.
  apply IH; [|exact Hr].
  intros a b d. unfold add_parsed. rewrite get_edge_data_add_edge.
  destruct (same_pair (a, b) (snd (fst t), snd t)).
  - intros [= <-]. unfold updated.
    now destruct (get_edge_data (snd (fst t)) (snd t) G0).
  - apply H0.
Qed.

Lemma parse_line_ok weighted line :
  line_ok weighted line = true <->
  exists t, parse_line weighted line = Ok t.
Proof.
  unfold line_ok, parse_line.
  destruct (split "," (strip (of_string line))) as [|a [|b [|c [|? ?]]]];
    simpl; try (split; [discriminate | intros [? ?]; discriminate]).
  destruct (int b) as [n1|], (int c) as [n2|]; simpl;
    try (split; [discriminate | intros [? ?]; discriminate]).
  destruct weighted; simpl.
  - destruct (float a); simpl;
      [split; eauto | split; [discriminate | intros [? ?]; discriminate]].
  - split; eauto.
Qed.

Lemma parse_line_raises weighted line e :
  parse_line weighted line = Raise e -> e = ValueError.
Proof.
  unfold parse_line.
  destruct (split "," (strip (of_string line))) as [|a [|b [|c [|? ?]]]];
    try (now intros [= <-]).
  destruct (int b), (int c); try (now intros [= <-]).
  destruct weighted; [|discriminate].
  destruct (float a); [discriminate | now intros [= <-]].
Qed.

Lemma parse_line_unweighted line w a b :
  parse_line false line = Ok (w, a, b) -> w = 1%float.
Proof.
  unfold parse_line.
  destruct (split "," (strip (of_string line))) as [|x [|y [|z [|? ?]]]];
    try discriminate.
  destruct (int y), (int z); try discriminate. now intros [= <- _ _].
Qed.

(** The first line that is not accepted ends the loading. *)
Lemma load_lines_raises weighted lines : forall G0,
  existsb (fun l => negb (line_ok weighted l)) lines = true ->
  load_lines weighted lines G0 = Raise ValueError.
Proof.
  induction lines as [|l r IH]; intros G0; simpl; [discriminate|].
  destruct (parse_line weighted l) as [[[w a] b]|e] eqn:E.
  - assert (Hok : line_ok weighted l = true)
      by (apply parse_line_ok; eauto).
    rewrite Hok. simpl. apply IH.
  - intros _. f_equal. exact (parse_line_raises _ _ _ E).
Qed.

Lemma load_lines_succeeds weighted lines : forall G0,
  forallb (line_ok weighted) lines = true ->
  exists G, load_lines weighted lines G0 = Ok G.
Proof.
  induction lines as [|l r IH]; intros G0; simpl; [eauto|].
  rewrite andb_true_iff. intros [Hl Hr].
  apply parse_line_ok in Hl. destruct Hl as [[[w a] b] ->]. now apply IH.
Qed.

(** ** Running *)

Section RunFacts.

Variable read : string -> option (list string).
Variable solve : BQM -> list (sample * PrimFloat.float).
Variable impl : sum_impl.

Lemma report_spec W se w :
  report W se w =
  (Ok tt, mkWorld (files w) (dirs w) (stdout w ++ report_lines W se)).
Proof.
  destruct se as [s E]. cbv [report bind print files dirs stdout].
  unfold report_lines. simpl. now rewrite <- !app_assoc.
Qed.

Lemma for_each_report W data : forall w,
  for_each data (report W) w =
  (Ok tt,
   mkWorld (files w) (dirs w) (stdout w ++ flat_map (report_lines W) data)).
Proof.
  induction data as [|se r IH]; intros w; simpl.
  - unfold ret. rewrite app_nil_r. now destruct w.
  - unfold bind. rewrite report_spec, IH. simpl. now rewrite <- app_assoc.
Qed.

(** A run whose graph loads: what it returns, writes and prints. *)
Lemma run_solver_loaded N k seed weighted G w :
  load_graph read (graph_file N k seed) weighted = Ok G ->
  run_solver read solve impl N k seed weighted w =
  (Ok tt,
   mkWorld
     (files w
      ++ (sumweights_file N k seed,
          Text [FNum (total_weight impl G); Lit newline])
      :: match solve (from_networkx_graph (add_quadratic G)) with
         | (_, E) :: _ =>
             [(out_file N k seed weighted,
               Json (savedict N k seed weighted (total_weight impl G) E
                       (cut_value (total_weight impl G) E)))]
         | [] => []
         end)
     (dirs w ++ [output_dir N k])
     (stdout w
      ++ [ [Lit "Saved total edge weight W="; FNum (total_weight impl G);
            Lit " to "; Lit (sumweights_file N k seed)];
           [Lit "Number of samples returned: ";
            FInt (Z.of_nat (List.length
                    (solve (from_networkx_graph (add_quadratic G)))))] ]
      ++ flat_map (report_lines (total_weight impl G))
           (solve (from_networkx_graph (add_quadratic G)))
      ++ match solve (from_networkx_graph (add_quadratic G)) with
         | _ :: _ =>
             [ [Lit "Saving results to ";
                Lit (out_file N k seed weighted)];
               [Lit "File saved successfully!"] ]
         | [] => [ [Lit "No energy data found. Nothing to save."] ]
         end)).
Proof.
  intros Hload.
  cbv [run_solver bind lift makedirs write print files dirs stdout].
  rewrite Hload. rewrite for_each_report.
  cbv [files dirs stdout].
  destruct (solve (from_networkx_graph (add_quadratic G))) as [|[s E] r];
    cbv [print write files dirs stdout];
    repeat (rewrite <- !app_assoc; simpl app); reflexivity.
Qed.

(** A run whose graph does not load: the exception, and the output
    directory as the only trace. *)
Lemma run_solver_failed N k seed weighted e w :
  load_graph read (graph_file N k seed) weighted = Raise e ->
  run_solver read solve impl N k seed weighted w =
  (Raise e, mkWorld (files w) (dirs w ++ [output_dir N k]) (stdout w)).
Proof.
  intros Hload.
  cbv [run_solver bind lift makedirs files dirs stdout].
  now rewrite Hload.
Qed.

End RunFacts.

(** ** Sums of unit weights *)

Lemma ones_step_inv k :
  ones_step k = true ->
  PrimFloat.add (float_of_Z k) 1%float = float_of_Z (k + 1)
  /\ PrimFloat.leb (PrimFloat.abs 1%float) (PrimFloat.abs (float_of_Z k))
     = true
  /\ PrimFloat.add PrimFloat.zero
       (PrimFloat.add
          (PrimFloat.sub (float_of_Z k) (float_of_Z (k + 1))) 1%float)
     = PrimFloat.zero.
Proof.
  unfold ones_step. rewrite !andb_true_iff.
  intros [[H1 H2] H3]. apply FloatAxioms.Leibniz.eqb_spec in H1, H3.
  rewrite H1 in H3. auto.
Qed.

Lemma fold_left_ones n : forall k,
  1 <= k -> k + Z.of_nat n < 2 ^ 53 ->
  fold_left PrimFloat.add (repeat 1%float n) (float_of_Z k)
  = float_of_Z (k + Z.of_nat n).
Proof.
  induction n as [|n IH]; intros k Hk Hn.
  - simpl. now rewrite Z.add_0_r.
  - cbn [repeat fold_left].
    destruct (ones_step_inv k) as [H1 _]; [apply ones_step_exact; lia|].
    rewrite H1, IH by lia. f_equal. lia.
Qed.

Lemma neumaier_ones n : forall k,
  1 <= k -> k + Z.of_nat n < 2 ^ 53 ->
  neumaier (float_of_Z k) PrimFloat.zero (repeat 1%float n)
  = float_of_Z (k + Z.of_nat n).
Proof.
  induction n as [|n IH]; intros k Hk Hn.
  - simpl. now rewrite Z.add_0_r.
  - cbn [repeat neumaier].
    destruct (ones_step_inv k) as [H1 [H2 H3]];
      [apply ones_step_exact; lia|].
    rewrite H2, H1, H3, IH by lia. f_equal. lia.
Qed.

(** [sum] of [n] unit weights, [0 < n < 2^53], is the float of [n]: every
    partial sum is an integer that binary64 holds exactly. *)
Lemma sum_ones impl n :
  (1 <= n)%nat -> Z.of_nat n < 2 ^ 53 ->
  sum impl (repeat 1%float n) = PyFloat (float_of_Z (Z.of_nat n)).
Proof.
  intros Hn Hb. destruct n as [|n]; [lia|].
  cbn [repeat sum].
  change (PrimFloat.add (float_of_Z 0) 1%float) with (float_of_Z 1).
  destruct impl; f_equal.
  - rewrite fold_left_ones by lia. f_equal. lia.
  - rewrite neumaier_ones by lia. f_equal. lia.
Qed.

Lemma map_all_equal {A B} (f : A -> B) (c : B) l :
  (forall x, In x l -> f x = c) -> map f l = repeat c (List.length l).
Proof.
  induction l as [|x r IH]; intros H; simpl; [reflexivity|].
  rewrite (H x) by now left. f_equal. apply IH. intros y Hy. apply H.
  now right.
Qed.

End ScriptFacts.

(* ================================================================== *)
(** * The properties of the specification *)
(* ================================================================== *)

Import Py Nx Script PyFacts NxFacts ScriptFacts Examples.
Local Open Scope string_scope.

(** C1.  In a run whose graph loads, the reporting loop prints for every
    sample [(s, E)] of the solver the cut value [(W - E) / 2], [W] being
    the total edge weight computed before; the record written for the
    first sample holds the same formula at its energy; and for [W = 10],
    [E = 4] the value is exactly [3.0]. *)
Theorem C1_cut_value_formula
    read solve impl N k seed weighted G s E :
  load_graph read (graph_file N k seed) weighted = Ok G ->
  In (s, E) (solve (from_networkx_graph (add_quadratic G))) ->
  let W := total_weight impl G in
  let w := snd (run_solver read solve impl N k seed weighted initial) in
  In [Lit "Computed MaxCut value: "; FFloat ((to_float W - E) / 2)%float]
     (stdout w)
  /\ (forall s0 E0 rest,
        solve (from_networkx_graph (add_quadratic G)) = (s0, E0) :: rest ->
        exists d,
          In (out_file N k seed weighted, Json d) (files w)
          /\ In ("maxcut_value", JFloat ((to_float W - E0) / 2)%float) d)
  /\ cut_value (PyFloat 10%float) 4%float = 3%float.
Proof.
  intros Hload Hin W w. subst w.
  rewrite (run_solver_loaded read solve impl _ _ _ _ _ initial Hload).
  cbn [snd stdout files initial app].
  split; [|split].
  - right. right. apply in_or_app. left.
    apply in_flat_map. exists (s, E). split; [exact Hin|].
    unfold report_lines, cut_value. cbn [snd fst]. simpl. tauto.
  - intros s0 E0 rest ->. eexists. split.
    + right. left. reflexivity.
    + unfold savedict, cut_value. simpl. tauto.
  - reflexivity.
Qed.

Lemma C1_cut_value_formula_witness :
  In [Lit "Computed MaxCut value: "; FFloat 4.5%float]
     (stdout (snd (run_solver (only_file triangle_lines) triangle_solve
                     LeftToRight 10 3 2 true initial)))
  /\ cut_value (PyFloat 10%float) 4%float = 3%float.
Proof.
  destruct (C1_cut_value_formula (only_file triangle_lines) triangle_solve
              LeftToRight 10 3 2 true triangle_graph
              [(0, -1); (1, 1); (2, -1)]%Z (-4.5)%float)
    as [H1 [_ H3]].
  - vm_compute. reflexivity.
  - left. reflexivity.
  - split; [exact H1 | exact H3].
Defined.

(** C2.  In a run whose graph loads and whose solver returns at least one
    sample, the files written are the auxiliary file with [W] and then the
    result record, which holds, in this order and with nothing else, [N],
    [k], [seed], [weighted], [W], [ising_energy] (the energy of the FIRST
    sample), [maxcut_value] ([(W - first energy) / 2]) and [method] (the
    constant ["AKMaxSAT"]). *)
Theorem C2_record_from_first_sample
    read solve impl N k seed weighted G s E rest :
  load_graph read (graph_file N k seed) weighted = Ok G ->
  solve (from_networkx_graph (add_quadratic G)) = (s, E) :: rest ->
  let W := total_weight impl G in
  files (snd (run_solver read solve impl N k seed weighted initial)) =
  [ (sumweights_file N k seed, Text [FNum W; Lit newline]);
    (out_file N k seed weighted,
     Json [ ("N", JInt N);
            ("k", JInt k);
            ("seed", JInt seed);
            ("weighted", JBool weighted);
            ("W", JNum W);
            ("ising_energy", JFloat E);
            ("maxcut_value", JFloat ((to_float W - E) / 2)%float);
            ("method", JStr "AKMaxSAT") ]) ].
Proof.
  intros Hload Hdata W.
  rewrite (run_solver_loaded read solve impl _ _ _ _ _ initial Hload).
  rewrite Hdata. reflexivity.
Qed.

Lemma C2_record_from_first_sample_witness :
  files (snd (run_solver (only_file triangle_lines) triangle_solve
                Compensated 10 3 2 true initial)) =
  [ (sumweights_file 10 3 2, Text [FNum (PyFloat 4.5%float); Lit newline]);
    (out_file 10 3 2 true,
     Json [ ("N", JInt 10);
            ("k", JInt 3);
            ("seed", JInt 2);
            ("weighted", JBool true);
            ("W", JNum (PyFloat 4.5%float));
            ("ising_energy", JFloat (-4.5)%float);
            ("maxcut_value", JFloat 4.5%float);
            ("method", JStr "AKMaxSAT") ]) ].
Proof.
  apply (C2_record_from_first_sample (only_file triangle_lines)
           triangle_solve Compensated 10 3 2 true triangle_graph
           [(0, -1); (1, 1); (2, -1)]%Z (-4.5)%float []).
  - vm_compute. reflexivity.
  - reflexivity.
Defined.

(** The position of [a] in the list [r], as the lists before and after
    it. *)
Ltac split_around a r :=
  lazymatch r with
  | a :: ?t => let T := type of a in constr:((@nil T, t))
  | ?b :: ?t =>
      let p := split_around a t in
      lazymatch p with (?l1, ?l2) => constr:((b :: l1, l2)) end
  end.

(** A permutation of two explicit lists, one element at a time. *)
Ltac explicit_permutation :=
  repeat lazymatch goal with
    | |- Permutation [] [] => apply perm_nil
    | |- Permutation (?a :: ?l) ?r =>
        let p := split_around a r in
        lazymatch p with
        | (?l1, ?l2) => apply (Permutation_cons_app l1 l2 a); cbn [app]
        end
    end.

(** C3, as stated, fails: the same five weighted edges, read from two
    files that list them in different orders, load into graphs with the
    same edges and weights, and yet [W] differs, with the plain sum
    ([-1.0] against [0.0]) and with the compensated one ([0.0] against a
    number that is not [0.0]). *)
Lemma C3_counterexample :
  load_lines true spread_lines empty = Ok (loaded true spread_lines)
  /\ load_lines true spread_lines' empty = Ok (loaded true spread_lines')
  /\ Permutation (edges (loaded true spread_lines))
       (edges (loaded true spread_lines'))
  /\ total_weight LeftToRight (loaded true spread_lines)
     = PyFloat (-1)%float
  /\ total_weight LeftToRight (loaded true spread_lines')
     = PyFloat 0%float
  /\ total_weight Compensated (loaded true spread_lines)
     = PyFloat 0%float
  /\ total_weight Compensated (loaded true spread_lines')
     <> PyFloat 0%float.
Proof.
  repeat split; try (vm_compute; reflexivity).
  - vm_compute. explicit_permutation.
  - vm_compute. discriminate.
Qed.

(** With the plain sum the order already shows on the weights 0.1, 0.2
    and 0.3 ([0.6000000000000001] against [0.6]); the compensated sum
    gives [0.6] both ways. *)
Remark tenths_order_matters :
  total_weight LeftToRight (loaded true tenths_lines)
  <> total_weight LeftToRight (loaded true tenths_lines')
  /\ total_weight Compensated (loaded true tenths_lines)
     = total_weight Compensated (loaded true tenths_lines').
Proof.
  split; vm_compute; [discriminate | reflexivity].
Qed.

(** C3, amended.  [W] adds the weight of each edge of the loaded graph
    once: [G.edges] lists no unordered pair of nodes twice and holds
    exactly the edges of the graph.  When the weights are all multiples
    [z * 2^e] of one power of two (whole numbers for [e = 0], and the 1.0
    of unweighted mode among them) and the absolute values of the [z] add
    up to less than [2^53], no addition rounds: [W] is the exact sum,
    [(sum of the z) * 2^e], and the sum of the weights in any other order
    of the edges is the same [W], with the plain and with the compensated
    [sum] alike. *)
Theorem C3_total_weight_order
    impl read path weighted G es' zs e :
  load_graph read path weighted = Ok G ->
  Permutation (edges G) es' ->
  map (fun x => weight (snd x)) (edges G) = map (fun z => dyadic z e) zs ->
  -1022 <= e <= 971 ->
  abs_sum zs < 2 ^ 53 ->
  NoDup (map (fun x => norm (fst x)) (edges G))
  /\ (forall u v d,
        get_edge_data u v G = Some d <->
        In (u, v, d) (edges G) \/ In (v, u, d) (edges G))
  /\ to_float (total_weight impl G) = dyadic (int_sum zs) e
  /\ sum impl (map (fun x => weight (snd x)) es') = total_weight impl G.
Proof.
  intros Hload Hperm Hw He Hb.
  pose proof (load_graph_wf _ _ _ _ Hload) as Hwf.
  split; [now apply NoDup_edges|]. split; [|split].
  - intros u v d. split; [now apply edges_complete|].
    intros [H|H]; [now apply edges_sound|].
    rewrite (wf_sym _ Hwf). now apply edges_sound.
  - unfold total_weight. rewrite Hw. now apply to_float_sum_dyadic.
  - unfold total_weight.
    apply (sum_dyadic_perm impl e zs); [exact He | exact Hb | exact Hw |].
    now apply Permutation_map.
Qed.

Lemma C3_total_weight_order_witness :
  to_float (total_weight Compensated triangle_graph)
  = dyadic (int_sum [2; 3; 4]) (-1)
  /\ dyadic (int_sum [2; 3; 4]) (-1) = 4.5%float
  /\ sum Compensated
       (map (fun x => weight (snd x)) (rev (edges triangle_graph)))
     = total_weight Compensated triangle_graph.
Proof.
  destruct (C3_total_weight_order Compensated (only_file triangle_lines)
              (graph_file 10 3 2) true triangle_graph
              (rev (edges triangle_graph)) [2; 3; 4] (-1))
    as [_ [_ [H3 H4]]].
  - vm_compute. reflexivity.
  - apply Permutation_rev.
  - vm_compute. reflexivity.
  - lia.
  - vm_compute. reflexivity.
  - split; [exact H3|]. split; [vm_compute; reflexivity | exact H4].
Defined.

(** C4, as stated, fails: a sample with the spins 0 and 2 does not abort
    the run.  The run ends normally, prints the partitions (the two nodes
    are in neither) and writes the result record. *)
Lemma C4_counterexample :
  fst (run_solver (only_file triangle_lines) off_domain_solve
         LeftToRight 10 3 2 true initial) = Ok tt
  /\ In [Lit "S0: "; FNodes [2]]
       (stdout (snd (run_solver (only_file triangle_lines) off_domain_solve
                       LeftToRight 10 3 2 true initial)))
  /\ In [Lit "S1: "; FNodes []]
       (stdout (snd (run_solver (only_file triangle_lines) off_domain_solve
                       LeftToRight 10 3 2 true initial)))
  /\ map fst
       (files (snd (run_solver (only_file triangle_lines) off_domain_solve
                      LeftToRight 10 3 2 true initial)))
     = [sumweights_file 10 3 2; out_file 10 3 2 true].
Proof.
  vm_compute. repeat split; tauto.
Qed.

Lemma in_S0_of (s : sample) n : In n (S0_of s) <-> In (n, -1) s.
Proof.
  unfold S0_of. rewrite in_map_iff. split.
  - intros [[m v] [E H]]. simpl in E. subst m.
    apply filter_In in H. destruct H as [H Hv]. simpl in Hv.
    apply Z.eqb_eq in Hv. now subst v.
  - intros H. exists (n, -1). split; [reflexivity|].
    apply filter_In. split; [exact H | reflexivity].
Qed.

Lemma in_S1_of (s : sample) n : In n (S1_of s) <-> In (n, 1) s.
Proof.
  unfold S1_of. rewrite in_map_iff. split.
  - intros [[m v] [E H]]. simpl in E. subst m.
    apply filter_In in H. destruct H as [H Hv]. simpl in Hv.
    apply Z.eqb_eq in Hv. now subst v.
  - intros H. exists (n, 1). split; [reflexivity|].
    apply filter_In. split; [exact H | reflexivity].
Qed.

Lemma sample_value_unique (s : sample) n v v' :
  NoDup (keys s) -> In (n, v) s -> In (n, v') s -> v = v'.
Proof.
  intros Hnd H H'. apply (In_get_Some _ _ _ Hnd) in H, H'. congruence.
Qed.

(** C4, amended.  In a run whose graph loads, whatever the spins are, the
    run ends normally, and for every sample it prints as [S0] the nodes
    whose spin is -1 and as [S1] the nodes whose spin is +1, each in the
    order of the sample; a node with any other spin is in neither. *)
Theorem C4_partition_rule
    read solve impl N k seed weighted G s E :
  load_graph read (graph_file N k seed) weighted = Ok G ->
  In (s, E) (solve (from_networkx_graph (add_quadratic G))) ->
  NoDup (keys s) ->
  let r := run_solver read solve impl N k seed weighted initial in
  fst r = Ok tt
  /\ In [Lit "S0: "; FNodes (S0_of s)] (stdout (snd r))
  /\ In [Lit "S1: "; FNodes (S1_of s)] (stdout (snd r))
  /\ (forall n, In n (S0_of s) <-> In (n, -1) s)
  /\ (forall n, In n (S1_of s) <-> In (n, 1) s)
  /\ (forall n v, In (n, v) s -> v <> -1 -> v <> 1 ->
        ~ In n (S0_of s) /\ ~ In n (S1_of s)).
Proof.
  intros Hload Hin Hnd r. subst r.
  rewrite (run_solver_loaded read solve impl _ _ _ _ _ initial Hload).
  cbn [fst snd stdout initial app].
  assert (Hrep : forall line, In line (report_lines (total_weight impl G) (s, E)) ->
            In line
              (flat_map (report_lines (total_weight impl G))
                 (solve (from_networkx_graph (add_quadratic G))))).
  { intros line Hl. apply in_flat_map. now exists (s, E). }
  split; [reflexivity|]. split; [|split; [|split; [|split]]].
  - right. right. apply in_or_app. left. apply Hrep. simpl. tauto.
  - right. right. apply in_or_app. left. apply Hrep. simpl. tauto.
  - apply in_S0_of.
  - apply in_S1_of.
  - intros n v Hv Hminus Hplus. split.
    + rewrite in_S0_of. intros H'.
      exact (Hminus (sample_value_unique s n v (-1) Hnd Hv H')).
    + rewrite in_S1_of. intros H'.
      exact (Hplus (sample_value_unique s n v 1 Hnd Hv H')).
Qed.

Lemma C4_partition_rule_witness :
  fst (run_solver (only_file triangle_lines) off_domain_solve
         Compensated 10 3 2 true initial) = Ok tt
  /\ In [Lit "S0: "; FNodes [2]]
       (stdout (snd (run_solver (only_file triangle_lines) off_domain_solve
                       Compensated 10 3 2 true initial)))
  /\ In [Lit "S1: "; FNodes []]
       (stdout (snd (run_solver (only_file triangle_lines) off_domain_solve
                       Compensated 10 3 2 true initial))).
Proof.
  destruct (C4_partition_rule (only_file triangle_lines) off_domain_solve
              Compensated 10 3 2 true triangle_graph
              [(0, 0); (1, 2); (2, -1)]%Z 0%float)
    as [H1 [H2 [H3 _]]].
  - vm_compute. reflexivity.
  - left. reflexivity.
  - vm_compute. repeat constructor; simpl; intuition discriminate.
  - repeat split; assumption.
Defined.

Lemma same_pair_refl p : same_pair p p = true.
Proof. unfold same_pair. now rewrite !Z.eqb_refl. Qed.

Lemma norm_swap a b : norm (a, b) = norm (b, a).
Proof. unfold norm; simpl. f_equal; lia. Qed.

(** The edges of a loaded graph are the unordered pairs of its lines. *)
Lemma edges_of_lines ts p :
  In p (map (fun e => norm (fst e)) (edges (fold_left add_parsed ts empty)))
  <-> In p (map (fun t => norm (pair_of t)) ts).
Proof.
  pose proof (wf_fold ts empty wf_empty) as Hwf.
  rewrite !in_map_iff. split.
  - intros [[[a b] d] [E Hin]]. simpl in E. subst p.
    apply (edges_sound _ _ _ _ Hwf) in Hin.
    pose proof (get_edge_data_fold_iff a b ts empty) as H.
    rewrite Hin in H. simpl in H. symmetry in H.
    apply existsb_exists in H. destruct H as [t [Ht Hs]].
    exists t. split; [|exact Ht]. symmetry. now apply same_pair_norm.
  - intros [t [E Ht]]. subst p. destruct t as [[w u] v].
    unfold pair_of; simpl.
    pose proof (get_edge_data_fold_iff u v ts empty) as H.
    assert (Hex : existsb (fun t => same_pair (u, v) (pair_of t)) ts = true).
    { apply existsb_exists. exists (w, u, v). split; [exact Ht|].
      apply same_pair_refl. }
    rewrite Hex, orb_true_r in H.
    destruct (get_edge_data u v (fold_left add_parsed ts empty)) as [d|] eqn:Hd;
      [|discriminate].
    destruct (edges_complete _ _ _ _ Hwf Hd) as [Hin|Hin].
    + exists (u, v, d). split; [reflexivity | exact Hin].
    + exists (v, u, d). split; [apply norm_swap | exact Hin].
Qed.

Lemma number_of_edges ts :
  List.length (edges (fold_left add_parsed ts empty)) =
  List.length (nodup pair_eq_dec (map (fun t => norm (pair_of t)) ts)).
Proof.
  rewrite <- (length_map (fun e => norm (fst e))).
  apply Permutation_length, NoDup_Permutation.
  - apply NoDup_edges, wf_fold, wf_empty.
  - apply NoDup_nodup.
  - intros p. rewrite nodup_In. apply edges_of_lines.
Qed.

(** C5.  In unweighted mode every edge of the loaded graph has weight
    exactly [1.0], whatever the weight fields of the file say; the graph
    has one edge for each distinct unordered pair of the file; and [W] is
    the number of these edges as a float (the [int] 0 when there is
    none), as long as there are fewer than [2^53] of them: for three
    edges [W = 3.0]. *)
Theorem C5_unweighted_total
    impl read path lines G :
  read path = Some lines ->
  load_graph read path false = Ok G ->
  (forall a b d, In (a, b, d) (edges G) -> weight d = 1%float)
  /\ (exists ts,
        Forall2 (fun l t => parse_line false l = Ok t) lines ts
        /\ List.length (edges G) =
           List.length
             (nodup pair_eq_dec (map (fun t => norm (pair_of t)) ts)))
  /\ (edges G = [] -> total_weight impl G = PyInt 0)
  /\ (edges G <> [] -> Z.of_nat (List.length (edges G)) < 2 ^ 53 ->
      total_weight impl G =
      PyFloat (float_of_Z (Z.of_nat (List.length (edges G)))))
  /\ (List.length (edges G) = 3%nat ->
      total_weight impl G = PyFloat 3%float).
Proof.
  intros Hread Hload. unfold load_graph in Hload. rewrite Hread in Hload.
  destruct (load_lines_Ok_inv _ _ _ _ Hload) as [ts [Hts ->]].
  pose proof (wf_fold ts empty wf_empty) as Hwf.
  assert (Hone : forall a b d,
             In (a, b, d) (edges (fold_left add_parsed ts empty)) ->
             weight d = 1%float).
  { intros a b d Hin.
    apply (weight_fold (fun w => w = 1%float) ts empty) with (a := a) (b := b).
    - intros ? ? ? H. discriminate H.
    - clear -Hts. induction Hts as [|l [[w u] v] r ts Hl _ IH];
        constructor; [|exact IH].
      simpl. exact (parse_line_unweighted _ _ _ _ Hl).
    - now apply edges_sound. }
  assert (Hsum : forall n,
             List.length (edges (fold_left add_parsed ts empty)) = n ->
             (1 <= n)%nat -> Z.of_nat n < 2 ^ 53 ->
             total_weight impl (fold_left add_parsed ts empty) =
             PyFloat (float_of_Z (Z.of_nat n))).
  { intros n Hlen Hn Hb. unfold total_weight.
    rewrite (map_all_equal _ 1%float).
    - rewrite Hlen. now apply sum_ones.
    - intros [[a b] d] Hin. simpl. now apply (Hone a b). }
  split; [exact Hone|]. split; [|split; [|split]].
  - exists ts. split; [exact Hts | apply number_of_edges].
  - intros E. unfold total_weight. now rewrite E.
  - intros Hne Hb. apply Hsum; [reflexivity| |exact Hb].
    destruct (edges (fold_left add_parsed ts empty));
      [congruence | simpl; lia].
  - intros H3. rewrite (Hsum 3%nat H3); [reflexivity | lia |].
    change (Z.of_nat 3) with 3. lia.
Qed.

Lemma C5_unweighted_total_witness :
  (forall a b d,
     In (a, b, d) (edges (loaded false triangle_lines)) -> weight d = 1%float)
  /\ total_weight LeftToRight (loaded false triangle_lines) = PyFloat 3%float
  /\ total_weight Compensated (loaded false triangle_lines) = PyFloat 3%float.
Proof.
  assert (Hread : only_file triangle_lines (graph_file 10 3 2)
                  = Some triangle_lines) by (vm_compute; reflexivity).
  assert (Hload : load_graph (only_file triangle_lines) (graph_file 10 3 2)
                    false = Ok (loaded false triangle_lines))
    by (vm_compute; reflexivity).
  destruct (C5_unweighted_total LeftToRight _ _ _ _ Hread Hload)
    as [H1 [_ [_ [_ H5]]]].
  destruct (C5_unweighted_total Compensated _ _ _ _ Hread Hload)
    as [_ [_ [_ [_ H5']]]].
  split; [exact H1|].
  split; [apply H5 | apply H5']; vm_compute; reflexivity.
Defined.

(** C6.  In a run whose graph loads and whose solver returns no sample,
    the run ends normally: the only file written is the auxiliary file
    with [W], no result record is written, and the last line printed
    reports that there is nothing to save. *)
Theorem C6_no_samples
    read solve impl N k seed weighted G :
  load_graph read (graph_file N k seed) weighted = Ok G ->
  solve (from_networkx_graph (add_quadratic G)) = [] ->
  let r := run_solver read solve impl N k seed weighted initial in
  fst r = Ok tt
  /\ files (snd r) =
     [ (sumweights_file N k seed,
        Text [FNum (total_weight impl G); Lit newline]) ]
  /\ stdout (snd r) =
     [ [Lit "Saved total edge weight W="; FNum (total_weight impl G);
        Lit " to "; Lit (sumweights_file N k seed)];
       [Lit "Number of samples returned: "; FInt 0];
       [Lit "No energy data found. Nothing to save."] ].
Proof.
  intros Hload Hdata r. subst r.
  rewrite (run_solver_loaded read solve impl _ _ _ _ _ initial Hload).
  rewrite Hdata. repeat split.
Qed.

Lemma C6_no_samples_witness :
  fst (run_solver (only_file triangle_lines) no_samples
         LeftToRight 10 3 2 true initial) = Ok tt
  /\ files (snd (run_solver (only_file triangle_lines) no_samples
                   LeftToRight 10 3 2 true initial)) =
     [ (sumweights_file 10 3 2,
        Text [FNum (PyFloat 4.5%float); Lit newline]) ].
Proof.
  destruct (C6_no_samples (only_file triangle_lines) no_samples
              LeftToRight 10 3 2 true triangle_graph) as [H1 [H2 _]].
  - vm_compute. reflexivity.
  - reflexivity.
  - split; [exact H1 | exact H2].
Defined.

(** C7, as stated, fails: in unweighted mode a line whose weight field is
    no number ([abc], refused by [float] and by [int]) is not an error.
    The graph loads with the edge and the run writes the auxiliary
    file. *)
Lemma C7_counterexample :
  float (of_string "abc") = None
  /\ int (of_string "abc") = None
  /\ load_graph (only_file worded_lines) (graph_file 10 3 2) false
     = Ok (add_edge 0 1 1%float empty)
  /\ run_solver (only_file worded_lines) no_samples LeftToRight
       10 3 2 false initial
     = (Ok tt,
        mkWorld
          [ (sumweights_file 10 3 2,
             Text [FNum (PyFloat 1%float); Lit newline]) ]
          [ output_dir 10 3 ]
          [ [Lit "Saved total edge weight W="; FNum (PyFloat 1%float);
             Lit " to "; Lit (sumweights_file 10 3 2)];
            [Lit "Number of samples returned: "; FInt 0];
            [Lit "No energy data found. Nothing to save."] ]).
Proof.
  repeat split; vm_compute; reflexivity.
Qed.

(** C7, amended.  When some line of the input file has not exactly three
    fields between commas, or a node field that [int] refuses, or, in
    weighted mode only, a weight field that [float] refuses, loading
    raises [ValueError] and returns no graph, whatever the other lines
    are; the run ends with that exception, having made the output
    directory and written and printed nothing. *)
Theorem C7_malformed_line_fatal
    read solve impl N k seed weighted lines :
  read (graph_file N k seed) = Some lines ->
  existsb (fun l => negb (line_ok weighted l)) lines = true ->
  load_graph read (graph_file N k seed) weighted = Raise ValueError
  /\ run_solver read solve impl N k seed weighted initial
     = (Raise ValueError, mkWorld [] [output_dir N k] []).
Proof.
  intros Hread Hbad.
  assert (Hload : load_graph read (graph_file N k seed) weighted
                  = Raise ValueError).
  { unfold load_graph. rewrite Hread. now apply load_lines_raises. }
  split; [exact Hload|].
  now rewrite (run_solver_failed read solve impl _ _ _ _ _ initial Hload).
Qed.

Lemma C7_malformed_line_fatal_witness :
  load_graph (only_file worded_lines) (graph_file 10 3 2) true
  = Raise ValueError
  /\ run_solver (only_file worded_lines) triangle_solve Compensated
       10 3 2 true initial
     = (Raise ValueError, mkWorld [] [output_dir 10 3] []).
Proof.
  apply (C7_malformed_line_fatal (only_file worded_lines) triangle_solve
           Compensated 10 3 2 true worded_lines).
  - vm_compute. reflexivity.
  - vm_compute. reflexivity.
Defined.

(** White space is not the same for [strip] and for [int] and [float]:
    a no-break space (U+00A0) at the end of a line is stripped with the
    end of line; the separator 28 behind a node, inside the line, reaches
    [int], which refuses it, in both modes.  And [int] reads 4300 digits
    and refuses 4301. *)
Remark white_space_and_digits :
  parse_line true ("1.0,0,1" ++ String (ascii_of_nat 160) newline)
  = Ok (1%float, 0, 1)
  /\ line_ok true ("1.0,0" ++ String (ascii_of_nat 28) ",1" ++ newline)
     = false
  /\ line_ok false ("abc,0" ++ String (ascii_of_nat 31) ",1" ++ newline)
     = false
  /\ is_some (int (repeat "1"%char 4300)) = true
  /\ int (repeat "1"%char 4301) = None.
Proof.
  split; [vm_compute; reflexivity|].
  split; [vm_compute; reflexivity|].
  split; [vm_compute; reflexivity|].
  split; vm_compute; reflexivity.
Qed.

(** C8.  For a sample (a dict, so each node once) whose spins are all -1
    or +1, every node of the sample is in [S0] or in [S1], nothing else
    is, and no node is in both. *)
Theorem C8_partition_complete (s : sample) :
  NoDup (keys s) ->
  (forall n v, In (n, v) s -> v = -1 \/ v = 1) ->
  (forall n, In n (S0_of s) \/ In n (S1_of s) <-> In n (keys s))
  /\ (forall n, ~ (In n (S0_of s) /\ In n (S1_of s))).
Proof.
  intros Hnd Hdom. split.
  - intros n. rewrite in_S0_of, in_S1_of. unfold keys. rewrite in_map_iff.
    split.
    + intros [H|H]; eexists; (split; [|exact H]); reflexivity.
    + intros [[m v] [E H]]. simpl in E. subst m.
      destruct (Hdom n v H) as [->| ->]; auto.
  - intros n [H0 H1]. rewrite in_S0_of in H0. rewrite in_S1_of in H1.
    pose proof (sample_value_unique s n _ _ Hnd H0 H1). discriminate.
Qed.

Lemma C8_partition_complete_witness :
  (forall n,
     In n (S0_of [(0, -1); (1, 1); (2, -1)])
     \/ In n (S1_of [(0, -1); (1, 1); (2, -1)])
     <-> In n [0; 1; 2])
  /\ S0_of [(0, -1); (1, 1); (2, -1)] = [0; 2]
  /\ S1_of [(0, -1); (1, 1); (2, -1)] = [1].
Proof.
  destruct (C8_partition_complete [(0, -1); (1, 1); (2, -1)]) as [H _].
  - simpl. repeat constructor; simpl; intuition discriminate.
  - simpl. intros n v [E|[E|[E|[]]]]; injection E as _ <-; auto.
  - split; [exact H | split; reflexivity].
Defined.

(** C9.  A loaded graph lists no unordered pair of nodes twice.  When
    several lines of the file name the same pair, in either direction,
    the edge list holds exactly one entry for the pair, and its weight is
    the weight of the last of these lines. *)
Theorem C9_last_line_wins
    read path weighted lines G l1 line l2 w u v :
  read path = Some lines ->
  load_graph read path weighted = Ok G ->
  lines = (l1 ++ line :: l2)%list ->
  parse_line weighted line = Ok (w, u, v) ->
  (forall l' t, In l' l2 -> parse_line weighted l' = Ok t ->
                same_pair (pair_of t) (u, v) = false) ->
  NoDup (map (fun e => norm (fst e)) (edges G))
  /\ exists a b d,
       same_pair (a, b) (u, v) = true
       /\ filter (fun e => same_pair (fst e) (u, v)) (edges G) = [(a, b, d)]
       /\ weight d = w.
Proof.
  intros Hread Hload -> Hline Hlater.
  unfold load_graph in Hload. rewrite Hread in Hload.
  pose proof (load_lines_wf _ _ _ _ wf_empty Hload) as Hwf.
  split; [now apply NoDup_edges|].
  rewrite load_lines_app in Hload.
  destruct (load_lines weighted l1 empty) as [G1|e]; [|discriminate].
  simpl in Hload. rewrite Hline in Hload.
  destruct (load_lines_Ok_inv _ _ _ _ Hload) as [ts [Hts HG]].
  assert (Hother : Forall (fun t => same_pair (pair_of t) (u, v) = false) ts).
  { clear -Hts Hlater. induction Hts as [|l t r ts Hl _ IH]; constructor.
    - apply (Hlater l t); [now left | exact Hl].
    - apply IH. intros l' t' Hin. apply Hlater. now right. }
  assert (Hd : get_edge_data u v G
               = Some (updated w (get_edge_data u v G1))).
  { rewrite HG, (get_edge_data_fold_other u v ts _ Hother).
    rewrite get_edge_data_add_edge. now rewrite same_pair_refl. }
  destruct (edges_filter_pair _ _ _ _ Hwf Hd) as [a [b [Hab Hf]]].
  exists a, b, (updated w (get_edge_data u v G1)).
  repeat split; [exact Hab | exact Hf |].
  unfold updated. now destruct (get_edge_data u v G1).
Qed.

Lemma C9_last_line_wins_witness :
  NoDup (map (fun e => norm (fst e)) (edges (loaded true repeated_lines)))
  /\ exists a b d,
       same_pair (a, b) (1, 0) = true
       /\ filter (fun e => same_pair (fst e) (1, 0))
            (edges (loaded true repeated_lines)) = [(a, b, d)]
       /\ weight d = 5%float.
Proof.
  apply (C9_last_line_wins (only_file repeated_lines) (graph_file 10 3 2)
           true repeated_lines (loaded true repeated_lines)
           [ "1.0,0,1" ++ newline; "2.0,1,2" ++ newline ]
           ("5.0,1,0" ++ newline) []).
  - vm_compute. reflexivity.
  - vm_compute. reflexivity.
  - reflexivity.
  - vm_compute. reflexivity.
  - intros l' t [].
Defined.

(** C10.  In unweighted mode [float] is never applied to the first
    field.  A file whose lines all have three fields, the second and the
    third read by [int], loads whatever the first fields are; each line
    is read with weight [1.0], the loaded graph holds the edge that the
    line names, with weight [1.0], and has no edge of another weight.
    The same file is refused in weighted mode as soon as one first field
    is no number for [float]. *)
Theorem C10_unweighted_ignores_weight_field read path lines :
  read path = Some lines ->
  (forall line, In line lines ->
     exists a b c n1 n2,
       split "," (strip (of_string line)) = [a; b; c]
       /\ int b = Some n1 /\ int c = Some n2) ->
  exists G,
    load_graph read path false = Ok G
    /\ (forall line a b c n1 n2,
          In line lines ->
          split "," (strip (of_string line)) = [a; b; c] ->
          int b = Some n1 -> int c = Some n2 ->
          parse_line false line = Ok (1%float, n1, n2)
          /\ exists d, get_edge_data n1 n2 G = Some d
                       /\ weight d = 1%float)
    /\ (forall u v d, In (u, v, d) (edges G) -> weight d = 1%float)
    /\ (forall line a b c,
          In line lines ->
          split "," (strip (of_string line)) = [a; b; c] ->
          float a = None ->
          load_graph read path true = Raise ValueError).
Proof.
  intros Hread Hlines.
  assert (Hparse : forall line a b c n1 n2,
            split "," (strip (of_string line)) = [a; b; c] ->
            int b = Some n1 -> int c = Some n2 ->
            parse_line false line = Ok (1%float, n1, n2)).
  { intros line a b c n1 n2 Hs Hb Hc. unfold parse_line.
    now rewrite Hs, Hb, Hc. }
  assert (Hok : forallb (line_ok false) lines = true).
  { apply forallb_forall. intros line Hin.
    destruct (Hlines line Hin) as [a [b [c [n1 [n2 [Hs [Hb Hc]]]]]]].
    apply parse_line_ok. eauto. }
  destruct (load_lines_succeeds false lines empty Hok) as [G HG].
  exists G. unfold load_graph. rewrite Hread.
  split; [exact HG|].
  pose proof (load_lines_wf _ _ _ _ wf_empty HG) as Hwf.
  destruct (load_lines_Ok_inv _ _ _ _ HG) as [ts [Hts EG]].
  assert (Hone : forall u v d, get_edge_data u v G = Some d ->
                   weight d = 1%float).
  { rewrite EG. apply (weight_fold (fun w => w = 1%float) ts empty).
    - intros ? ? ? H. discriminate H.
    - clear -Hts. induction Hts as [|l [[w u] v] r ts Hl _ IH];
        constructor; [|exact IH].
      simpl. exact (parse_line_unweighted _ _ _ _ Hl). }
  split; [|split].
  - intros line a b c n1 n2 Hin Hs Hb Hc.
    pose proof (Hparse _ _ _ _ _ _ Hs Hb Hc) as Hp.
    split; [exact Hp|].
    destruct (Forall2_In_l _ _ _ _ Hts Hin) as [t [Ht Hpt]].
    rewrite Hp in Hpt. injection Hpt as <-.
    pose proof (get_edge_data_fold_iff n1 n2 ts empty) as Hiff.
    rewrite <- EG in Hiff.
    assert (Hex : existsb (fun t => same_pair (n1, n2) (pair_of t)) ts
                  = true).
    { apply existsb_exists. exists (1%float, n1, n2).
      split; [exact Ht | apply same_pair_refl]. }
    rewrite Hex, orb_true_r in Hiff.
    destruct (get_edge_data n1 n2 G) as [d|] eqn:Ed; [|discriminate].
    exists d. split; [reflexivity | exact (Hone _ _ _ Ed)].
  - intros u v d Hin. apply (Hone u v). now apply edges_sound.
  - intros line a b c Hin Hs Ha. apply load_lines_raises.
    apply existsb_exists. exists line. split; [exact Hin|].
    unfold line_ok. rewrite Hs, Ha. simpl.
    now rewrite andb_false_r.
Qed.

Lemma C10_unweighted_ignores_weight_field_witness :
  exists G,
    load_graph (only_file worded_lines) (graph_file 10 3 2) false = Ok G
    /\ (exists d, get_edge_data 0 1 G = Some d /\ weight d = 1%float)
    /\ load_graph (only_file worded_lines) (graph_file 10 3 2) true
       = Raise ValueError.
Proof.
  destruct (C10_unweighted_ignores_weight_field
              (only_file worded_lines) (graph_file 10 3 2) worded_lines)
    as [G [H1 [H2 [_ H4]]]].
  - vm_compute. reflexivity.
  - intros line [<-|[]].
    exists (of_string "abc"), (of_string "0"), (of_string "1"), 0, 1.
    repeat split; vm_compute; reflexivity.
  - exists G. split; [exact H1|]. split.
    + destruct (H2 ("abc,0,1" ++ newline)%string
                  (of_string "abc") (of_string "0") (of_string "1") 0 1)
        as [_ Hd]; try (vm_compute; reflexivity).
      * left. reflexivity.
      * exact Hd.
    + apply (H4 ("abc,0,1" ++ newline)%string
               (of_string "abc") (of_string "0") (of_string "1"));
        try (vm_compute; reflexivity).
      left. reflexivity.
Defined.

(* ================================================================== *)
(** * Further properties of the code *)
(* ================================================================== *)

Import Batch Views.
Local Open Scope list_scope.

(* ================================================================== *)
(** * Further properties: the text of a line *)
(* ================================================================== *)

Lemma of_string_app a b :
  of_string (a ++ b)%string = of_string a ++ of_string b.
Proof.
  unfold of_string. induction a as [|c a IH]; simpl; [reflexivity|].
  now rewrite IH.
Qed.

Lemma lstrip_blank t : blank t = true -> lstrip t = [].
Proof.
  unfold blank. induction t as [|c r IH]; simpl; [reflexivity|].
  destruct (is_space c); simpl; [exact IH | discriminate].
Qed.

Lemma lstrip_app t u :
  lstrip (t ++ u) = if blank t then lstrip u else (lstrip t ++ u)%list.
Proof.
  unfold blank. induction t as [|c r IH]; simpl; [reflexivity|].
  destruct (is_space c); simpl; [exact IH | reflexivity].
Qed.

Lemma blank_rev t : blank (rev t) = blank t.
Proof.
  unfold blank. induction t as [|c r IH]; simpl; [reflexivity|].
  rewrite forallb_app, IH. simpl. rewrite andb_true_r. apply andb_comm.
Qed.

Lemma blank_lstrip t : blank (lstrip t) = blank t.
Proof.
  unfold blank. induction t as [|c r IH]; simpl; [reflexivity|].
  destruct (is_space c) eqn:E; simpl; [exact IH | now rewrite E].
Qed.

Lemma rstrip_app t u :
  rstrip (t ++ u) = if blank u then rstrip t else (t ++ rstrip u)%list.
Proof.
  unfold rstrip. rewrite rev_app_distr, lstrip_app, blank_rev.
  destruct (blank u); [reflexivity|].
  now rewrite rev_app_distr, rev_involutive.
Qed.

Lemma rstrip_blank t : blank t = true -> rstrip t = [].
Proof.
  intros H. unfold rstrip. rewrite lstrip_blank; [reflexivity|].
  now rewrite blank_rev.
Qed.

(** Blanks before and after a text do not show after [strip]. *)
Lemma strip_pad pre t post :
  blank pre = true -> blank post = true ->
  strip (pre ++ t ++ post) = strip t.
Proof.
  intros Hpre Hpost. unfold strip.
  rewrite lstrip_app, Hpre, lstrip_app.
  destruct (blank t) eqn:Ht.
  - rewrite (lstrip_blank t Ht). rewrite rstrip_blank; [reflexivity|].
    now rewrite blank_lstrip.
  - now rewrite rstrip_app, Hpost.
Qed.

Lemma lstrip_idem t : lstrip (lstrip t) = lstrip t.
Proof.
  induction t as [|c r IH]; simpl; [reflexivity|].
  destruct (is_space c) eqn:E; [exact IH|]. simpl. now rewrite E.
Qed.

Lemma rstrip_idem t : rstrip (rstrip t) = rstrip t.
Proof.
  unfold rstrip. now rewrite rev_involutive, lstrip_idem.
Qed.

(** What [lstrip] leaves starts with no blank, and [rstrip] keeps it
    so. *)
Lemma lstrip_rstrip_lstrip t : lstrip (rstrip (lstrip t)) = rstrip (lstrip t).
Proof.
  destruct (lstrip t) as [|c r] eqn:E; [reflexivity|].
  assert (Hc : is_space c = false).
  { clear -E. induction t as [|d t IH]; simpl in E; [discriminate|].
    destruct (is_space d) eqn:Ed; [now apply IH|].
    injection E as -> _. exact Ed. }
  change (c :: r) with ([c] ++ r)%list. rewrite rstrip_app.
  destruct (blank r).
  - unfold rstrip. simpl. rewrite Hc. simpl. now rewrite Hc.
  - simpl. now rewrite Hc.
Qed.

Lemma strip_idem t : strip (strip t) = strip t.
Proof.
  unfold strip. now rewrite lstrip_rstrip_lstrip, rstrip_idem.
Qed.

(** ** The white space that [int] and [float] skip *)

Lemma is_cspace_low c :
  is_cspace c = true -> (Z.of_nat (nat_of_ascii c) <? 127)%Z = true.
Proof.
  unfold is_cspace. intros H. apply Z.ltb_lt.
  apply orb_true_iff in H. destruct H as [H|H].
  - apply andb_true_iff in H. destruct H as [_ H]. apply Z.leb_le in H. lia.
  - apply Z.eqb_eq in H. lia.
Qed.

Lemma is_cspace_ascii c : is_cspace c = true -> is_ascii c = true.
Proof.
  intros H. apply is_cspace_low in H. unfold is_ascii.
  apply Z.ltb_lt in H. apply Z.ltb_lt. lia.
Qed.

Lemma cblank_ascii t : cblank t = true -> forallb is_ascii t = true.
Proof.
  unfold cblank. rewrite !forallb_forall. intros H c Hc.
  apply is_cspace_ascii. now apply H.
Qed.

Lemma cblank_rev t : cblank (rev t) = cblank t.
Proof.
  unfold cblank. induction t as [|c r IH]; simpl; [reflexivity|].
  rewrite forallb_app, IH. simpl. rewrite andb_true_r. apply andb_comm.
Qed.

Lemma lskip_cblank t : cblank t = true -> lskip t = [].
Proof.
  unfold cblank. induction t as [|c r IH]; simpl; [reflexivity|].
  destruct (is_cspace c); simpl; [exact IH | discriminate].
Qed.

Lemma lskip_app t u :
  lskip (t ++ u) = if cblank t then lskip u else (lskip t ++ u)%list.
Proof.
  unfold cblank. induction t as [|c r IH]; simpl; [reflexivity|].
  destruct (is_cspace c); simpl; [exact IH | reflexivity].
Qed.

Lemma cblank_lskip t : cblank (lskip t) = cblank t.
Proof.
  unfold cblank. induction t as [|c r IH]; simpl; [reflexivity|].
  destruct (is_cspace c) eqn:E; simpl; [exact IH | now rewrite E].
Qed.

Lemma lskip_idem t : lskip (lskip t) = lskip t.
Proof.
  induction t as [|c r IH]; simpl; [reflexivity|].
  destruct (is_cspace c) eqn:E; [exact IH|]. simpl. now rewrite E.
Qed.

(** What [lskip] takes off is white space. *)
Lemma lskip_split t :
  exists pre, cblank pre = true /\ t = (pre ++ lskip t)%list.
Proof.
  induction t as [|c r [pre [Hp IH]]]; simpl.
  - exists []. split; reflexivity.
  - destruct (is_cspace c) eqn:E.
    + exists (c :: pre). split; [simpl; now rewrite E|].
      simpl. now rewrite <- IH.
    + exists []. split; reflexivity.
Qed.

(** A text is what [trim] keeps of it, between white space. *)
Lemma trim_split t :
  exists pre post,
    cblank pre = true /\ cblank post = true
    /\ t = (pre ++ trim t ++ post)%list.
Proof.
  destruct (lskip_split t) as [pre [Hpre E1]].
  destruct (lskip_split (rev (lskip t))) as [q [Hq E2]].
  exists pre, (rev q). split; [exact Hpre|].
  split; [now rewrite cblank_rev|].
  unfold trim. rewrite <- rev_app_distr, <- E2, rev_involutive. exact E1.
Qed.

(** White space before and after a text does not show after [trim]. *)
Lemma trim_pad pre t post :
  cblank pre = true -> cblank post = true ->
  trim (pre ++ t ++ post) = trim t.
Proof.
  intros Hpre Hpost. unfold trim.
  rewrite lskip_app, Hpre, lskip_app.
  destruct (cblank t) eqn:Ht.
  - rewrite (lskip_cblank t Ht), (lskip_cblank post Hpost). reflexivity.
  - rewrite rev_app_distr, lskip_app, cblank_rev, Hpost. reflexivity.
Qed.

Lemma trim_idem t : trim (trim t) = trim t.
Proof.
  destruct (trim_split t) as [pre [post [Hpre [Hpost E]]]].
  rewrite E at 2. now rewrite trim_pad.
Qed.

Lemma transform_cblank t : cblank t = true -> transform t = t.
Proof.
  unfold cblank. induction t as [|c r IH]; simpl; [reflexivity|].
  destruct (is_cspace c) eqn:E; simpl; [|discriminate].
  intros H. now rewrite (is_cspace_low c E), IH.
Qed.

Lemma transform_app_cblank pre t :
  cblank pre = true -> transform (pre ++ t) = (pre ++ transform t)%list.
Proof.
  unfold cblank. induction pre as [|c r IH]; simpl; [reflexivity|].
  destruct (is_cspace c) eqn:E; simpl; [|discriminate].
  intros H. now rewrite (is_cspace_low c E), IH.
Qed.

(** [transform] reaches what follows a text only when the text is
    clean. *)
Lemma transform_app t u :
  transform (t ++ u)
  = if clean t then (transform t ++ transform u)%list else transform t.
Proof.
  unfold clean. induction t as [|c r IH]; simpl; [reflexivity|].
  destruct (Z.of_nat (nat_of_ascii c) <? 127)%Z; simpl.
  - rewrite IH.
    now destruct (forallb
      (fun c => (Z.of_nat (nat_of_ascii c) <? 127)%Z || is_space c) r).
  - destruct (is_space c); simpl; [|reflexivity]. rewrite IH.
    now destruct (forallb
      (fun c => (Z.of_nat (nat_of_ascii c) <? 127)%Z || is_space c) r).
Qed.

(** [int] and [float] read a text as they read what [trim] keeps of
    it. *)
Lemma trim_decoded t : trim (decoded (trim t)) = trim (decoded t).
Proof.
  destruct (trim_split t) as [pre [post [Hpre [Hpost E]]]].
  assert (Ha : forallb is_ascii t = forallb is_ascii (trim t)).
  { rewrite E at 1. rewrite !forallb_app.
    rewrite (cblank_ascii pre Hpre), (cblank_ascii post Hpost).
    now rewrite andb_true_r. }
  unfold decoded. rewrite <- Ha.
  destruct (forallb is_ascii t).
  - apply trim_idem.
  - rewrite E at 2. rewrite (transform_app_cblank pre _ Hpre).
    rewrite transform_app, (transform_cblank post Hpost).
    destruct (clean (trim t)).
    + now rewrite trim_pad.
    + rewrite <- (app_nil_r (transform (trim t))) at 2.
      now rewrite trim_pad.
Qed.

Lemma int_trim t : int (trim t) = int t.
Proof. unfold int. now rewrite trim_decoded. Qed.

Lemma float_trim t : float (trim t) = float t.
Proof. unfold float. now rewrite trim_decoded. Qed.

Lemma strip_blank t : blank t = true -> strip t = [].
Proof.
  intros H. unfold strip. now rewrite (lstrip_blank t H).
Qed.

(** X1.  A line of blanks only (an empty last line, for one) ends the
    loading with [ValueError], in both modes. *)
Theorem blank_line_fatal read path weighted lines line :
  read path = Some lines ->
  In line lines ->
  blank (of_string line) = true ->
  parse_line weighted line = Raise ValueError
  /\ load_graph read path weighted = Raise ValueError.
Proof.
  intros Hread Hin Hblank.
  assert (Hp : parse_line weighted line = Raise ValueError).
  { unfold parse_line. now rewrite (strip_blank _ Hblank). }
  split; [exact Hp|].
  unfold load_graph. rewrite Hread. apply load_lines_raises.
  apply existsb_exists. exists line. split; [exact Hin|].
  destruct (line_ok weighted line) eqn:E; [|reflexivity].
  apply parse_line_ok in E. destruct E as [t Ht]. congruence.
Qed.

Lemma blank_line_fatal_witness :
  parse_line false newline = Raise ValueError
  /\ load_graph (only_file trailing_blank_lines) (graph_file 10 3 2) false
     = Raise ValueError.
Proof.
  apply (blank_line_fatal (only_file trailing_blank_lines)
           (graph_file 10 3 2) false trailing_blank_lines newline).
  - vm_compute. reflexivity.
  - right. left. reflexivity.
  - vm_compute. reflexivity.
Defined.

(** X2.  Blanks before and after a line (indentation, a carriage return
    before the end of line) change nothing to what is read from it. *)
Theorem parse_line_padding weighted pre line post :
  blank (of_string pre) = true ->
  blank (of_string post) = true ->
  parse_line weighted (pre ++ line ++ post)%string
  = parse_line weighted line.
Proof.
  intros Hpre Hpost. unfold parse_line.
  now rewrite !of_string_app, strip_pad.
Qed.

Lemma parse_line_padding_witness :
  parse_line true
    ("  " ++ "1.0,0,1" ++ String (ascii_of_nat 13) newline)%string
  = Ok (1%float, 0, 1).
Proof.
  rewrite (parse_line_padding true "  " "1.0,0,1"
             (String (ascii_of_nat 13) newline));
    vm_compute; reflexivity.
Defined.

(** ** The characters of a number *)

Local Close Scope string_scope.

Lemma digit_token c d : digit_val c = Some d -> token c = true.
Proof.
  unfold digit_val, token.
  destruct ((48 <=? Z.of_nat (nat_of_ascii c))
            && (Z.of_nat (nat_of_ascii c) <=? 57)) eqn:E; [|discriminate].
  intros _. apply andb_true_iff in E. destruct E as [E1 E2].
  apply Z.leb_le in E1. apply Z.leb_le in E2.
  apply andb_true_iff. split; [apply Z.leb_le; lia|].
  apply negb_true_iff, Z.eqb_neq. lia.
Qed.

Lemma snd_let {A B C} (x : A * B) (f : A -> C) :
  snd (let (a, b) := x in (f a, b)) = snd x.
Proof. now destruct x. Qed.

(** What [scan_digits] goes over is made of digits and underscores. *)
Lemma scan_digits_tokens n : forall t,
  (List.length t <= n)%nat ->
  forall c, In c t -> In c (snd (scan_digits t)) \/ token c = true.
Proof.
  induction n as [|n IH]; intros [|c0 r] Hlen c Hin; simpl in Hlen;
    try contradiction; try lia.
  cbn [scan_digits].
  destruct (digit_val c0) as [d|] eqn:D; [|left; exact Hin].
  assert (Hr : forall c, In c r ->
                 In c (snd (scan_digits r)) \/ token c = true)
    by (intros; apply IH; [lia | assumption]).
  destruct Hin as [<-|Hin]; [right; exact (digit_token _ _ D)|].
  destruct r as [|u [|c2 r3]].
  - contradiction.
  - rewrite snd_let. now apply Hr.
  - destruct (Ascii.eqb u "_" && is_digit c2) eqn:U.
    + rewrite snd_let. destruct Hin as [<-|Hin].
      * right. apply andb_true_iff in U. destruct U as [U _].
        apply Ascii.eqb_eq in U. subst u. reflexivity.
      * apply IH; [simpl in *; lia | exact Hin].
    + rewrite snd_let. now apply Hr.
Qed.

Lemma scan_digits_all t ds :
  scan_digits t = (ds, []) -> forall c, In c t -> token c = true.
Proof.
  intros H c Hin.
  destruct (scan_digits_tokens (List.length t) t (le_n _) c Hin) as [F|T];
    [|exact T].
  rewrite H in F. contradiction.
Qed.

Lemma scan_sign_tokens t neg r :
  scan_sign t = (neg, r) ->
  forall c, In c t -> In c r \/ token c = true.
Proof.
  unfold scan_sign. destruct t as [|c0 t]; [intros [= <- <-]; tauto|].
  destruct (Ascii.eqb c0 "-") eqn:E1.
  - intros [= <- <-] c [<-|H]; [right|now left].
    apply Ascii.eqb_eq in E1. now subst.
  - destruct (Ascii.eqb c0 "+") eqn:E2.
    + intros [= <- <-] c [<-|H]; [right|now left].
      apply Ascii.eqb_eq in E2. now subst.
    + intros [= <- <-] c H. now left.
Qed.

(** Every character of a text that [int] reads, white space apart, can
    stand in a number. *)
Lemma int_tokens t z :
  int t = Some z -> forall c, In c (trim (decoded t)) -> token c = true.
Proof.
  unfold int. destruct (scan_sign (trim (decoded t))) as [neg r] eqn:S.
  destruct (scan_digits r) as [ds rest] eqn:D.
  destruct ds as [|d ds]; [discriminate|].
  destruct rest; [|discriminate]. intros _ c Hin.
  destruct (scan_sign_tokens _ _ _ S c Hin) as [H|H]; [|exact H].
  exact (scan_digits_all _ _ D c H).
Qed.

Lemma lower_token c : token (lower c) = true -> token c = true.
Proof.
  unfold lower.
  destruct ((65 <=? Z.of_nat (nat_of_ascii c))
            && (Z.of_nat (nat_of_ascii c) <=? 90)) eqn:E; [|tauto].
  intros _. apply andb_true_iff in E. destruct E as [E1 E2].
  apply Z.leb_le in E1. apply Z.leb_le in E2. unfold token.
  apply andb_true_iff. split; [apply Z.leb_le; lia|].
  apply negb_true_iff, Z.eqb_neq. lia.
Qed.

Lemma text_eqb_eq a b : text_eqb a b = true -> a = b.
Proof.
  unfold text_eqb, to_string. intros H. apply String.eqb_eq in H.
  rewrite <- (list_ascii_of_string_of_list_ascii a),
          <- (list_ascii_of_string_of_list_ascii b).
  now rewrite H.
Qed.

Lemma word_tokens r w :
  text_eqb (map lower r) w = true -> forallb token w = true ->
  forall c, In c r -> token c = true.
Proof.
  intros H Hw c Hin. apply text_eqb_eq in H. apply lower_token.
  rewrite forallb_forall in Hw. apply Hw. rewrite <- H. now apply in_map.
Qed.

Lemma scan_exponent_tokens t ex :
  scan_exponent t = Some (ex, []) -> forall c, In c t -> token c = true.
Proof.
  unfold scan_exponent. destruct t as [|c0 t]; [intros _ c []|].
  destruct (Ascii.eqb (lower c0) "e") eqn:E; [|discriminate].
  destruct (scan_sign t) as [neg r1] eqn:S.
  destruct (scan_digits r1) as [ds rest] eqn:D.
  destruct ds as [|d ds]; [discriminate|].
  intros [= _ ->] c [<-|Hin].
  - apply lower_token. apply Ascii.eqb_eq in E. now rewrite E.
  - destruct (scan_sign_tokens _ _ _ S c Hin) as [H|H]; [|exact H].
    exact (scan_digits_all _ _ D c H).
Qed.

Lemma scan_digits_rest t ds rest :
  scan_digits t = (ds, rest) ->
  forall c, In c t -> In c rest \/ token c = true.
Proof.
  intros H c Hin.
  pose proof (scan_digits_tokens (List.length t) t (le_n _) c Hin) as F.
  now rewrite H in F.
Qed.

(** Every character of a text that [float] reads, white space apart, can
    stand in a number. *)
Lemma float_tokens t f :
  float t = Some f -> forall c, In c (trim (decoded t)) -> token c = true.
Proof.
  unfold float. destruct (scan_sign (trim (decoded t))) as [neg r] eqn:S.
  intros H c Hin.
  destruct (scan_sign_tokens _ _ _ S c Hin) as [Hr|Ht]; [|exact Ht].
  clear S Hin.
  destruct (text_eqb (map lower r) (of_string "inf")) eqn:W1.
  { exact (word_tokens _ _ W1 eq_refl c Hr). }
  destruct (text_eqb (map lower r) (of_string "infinity")) eqn:W2.
  { exact (word_tokens _ _ W2 eq_refl c Hr). }
  destruct (text_eqb (map lower r) (of_string "nan")) eqn:W3.
  { exact (word_tokens _ _ W3 eq_refl c Hr). }
  cbn [orb] in H.
  destruct (scan_digits r) as [ip r1] eqn:D1.
  destruct (scan_digits_rest _ _ _ D1 c Hr) as [H1|Ht]; [|exact Ht].
  clear D1 Hr.
  assert (Hdot : forall fp r2 dot,
            match r1 with
            | c :: r' =>
                if Ascii.eqb c "."
                then let (fp, r2) := scan_digits r' in (fp, r2, true)
                else ([], r1, false)
            | [] => ([], [], false)
            end = (fp, r2, dot) ->
            In c r2 \/ token c = true).
  { intros fp r2 dot E. destruct r1 as [|c1 r']; [contradiction|].
    destruct (Ascii.eqb c1 ".") eqn:Edot.
    - destruct (scan_digits r') as [fp' r2'] eqn:D2.
      injection E as <- <- <-.
      destruct H1 as [<-|H1].
      + right. apply Ascii.eqb_eq in Edot. now subst.
      + exact (scan_digits_rest _ _ _ D2 c H1).
    - injection E as <- <- <-. now left. }
  destruct (match r1 with
            | c :: r' =>
                if Ascii.eqb c "."
                then let (fp, r2) := scan_digits r' in (fp, r2, true)
                else ([], r1, false)
            | [] => ([], [], false)
            end) as [[fp r2] dot] eqn:E.
  destruct (Hdot fp r2 dot eq_refl) as [H2|Ht]; [|exact Ht].
  assert (He : forall ex, scan_exponent r2 = Some (ex, []) -> token c = true).
  { intros ex Hx. exact (scan_exponent_tokens _ _ Hx c H2). }
  destruct (scan_exponent r2) as [[ex [|? ?]]|];
    try (destruct ip, fp; discriminate).
  now apply (He ex).
Qed.

(** A character below 127 of a text stays when the text is brought to
    ASCII, unless a question mark ends the text before it. *)
Lemma transform_keeps t c :
  In c t -> (Z.of_nat (nat_of_ascii c) <? 127) = true ->
  In c (transform t) \/ In "?"%char (transform t).
Proof.
  induction t as [|d r IH]; simpl; [tauto|].
  intros [<-|Hin] Hc.
  - rewrite Hc. left. now left.
  - destruct (Z.of_nat (nat_of_ascii d) <? 127).
    + destruct (IH Hin Hc); [left | right]; now right.
    + destruct (is_space d).
      * destruct (IH Hin Hc); [left | right]; now right.
      * right. now left.
Qed.

Lemma decoded_keeps t c :
  In c t -> (Z.of_nat (nat_of_ascii c) <? 127) = true ->
  In c (decoded t) \/ In "?"%char (decoded t).
Proof.
  intros Hin Hc. unfold decoded.
  destruct (forallb is_ascii t); [now left | now apply transform_keeps].
Qed.

Lemma trim_keeps t c :
  In c t -> is_cspace c = false -> In c (trim t).
Proof.
  intros Hin Hc.
  destruct (trim_split t) as [pre [post [Hpre [Hpost E]]]].
  rewrite E in Hin. rewrite !in_app_iff in Hin.
  unfold cblank in *. rewrite forallb_forall in Hpre, Hpost.
  destruct Hin as [H|[H|H]]; [|exact H|].
  - apply Hpre in H. congruence.
  - apply Hpost in H. congruence.
Qed.

Lemma separator_facts c :
  separator c = true ->
  (Z.of_nat (nat_of_ascii c) <? 127) = true
  /\ is_cspace c = false /\ token c = false /\ is_space c = true.
Proof.
  unfold separator, is_cspace, token, is_space. intros H.
  apply andb_true_iff in H. destruct H as [H1 H2].
  apply Z.leb_le in H1. apply Z.leb_le in H2.
  repeat split.
  - apply Z.ltb_lt. lia.
  - apply orb_false_iff. split.
    + apply andb_false_iff. right. apply Z.leb_gt. lia.
    + apply Z.eqb_neq. lia.
  - apply andb_false_iff. left. apply Z.leb_gt. lia.
  - apply orb_true_iff. left. apply orb_true_iff. left.
    apply orb_true_iff. right. apply andb_true_iff.
    split; apply Z.leb_le; lia.
Qed.

(** A text that holds one of the separators 28..31 is no number. *)
Lemma no_number_with_separator t c :
  In c t -> separator c = true -> int t = None /\ float t = None.
Proof.
  intros Hin Hs.
  destruct (separator_facts c Hs) as [Hlow [Hcs [Htok _]]].
  assert (Hbad : exists b, In b (trim (decoded t)) /\ token b = false).
  { destruct (decoded_keeps t c Hin Hlow) as [H|H].
    - exists c. split; [now apply trim_keeps | exact Htok].
    - exists "?"%char. split; [now apply trim_keeps | reflexivity]. }
  destruct Hbad as [b [Hb Hnt]]. split.
  - destruct (int t) as [z|] eqn:E; [|reflexivity].
    pose proof (int_tokens t z E b Hb). congruence.
  - destruct (float t) as [f|] eqn:E; [|reflexivity].
    pose proof (float_tokens t f E b Hb). congruence.
Qed.

Local Open Scope string_scope.
Local Open Scope list_scope.

(** X3.  The fields of a line count up to the white space that [int]
    and [float] skip around them (blank, TAB, LF, VT, FF, CR): two lines
    whose three fields agree once this white space is taken off are read
    alike.  The separators 28..31, which [strip] takes off the ends of a
    line, are no such white space: one of them in a node field, or in
    the weight field in weighted mode, ends the loading with
    [ValueError]. *)
Theorem parse_line_fields_stripped weighted l1 l2 a1 b1 c1 a2 b2 c2 :
  split "," (strip (of_string l1)) = [a1; b1; c1] ->
  split "," (strip (of_string l2)) = [a2; b2; c2] ->
  trim a1 = trim a2 -> trim b1 = trim b2 -> trim c1 = trim c2 ->
  parse_line weighted l1 = parse_line weighted l2
  /\ (forall c,
        separator c = true ->
        In c b1 \/ In c c1 \/ (weighted = true /\ In c a1) ->
        parse_line weighted l1 = Raise ValueError).
Proof.
  intros H1 H2 Ha Hb Hc. split.
  - unfold parse_line. rewrite H1, H2.
    rewrite <- (int_trim b1), <- (int_trim b2), Hb.
    rewrite <- (int_trim c1), <- (int_trim c2), Hc.
    rewrite <- (float_trim a1), <- (float_trim a2), Ha.
    reflexivity.
  - intros c Hs Hin. unfold parse_line. rewrite H1.
    destruct Hin as [Hin|[Hin|[-> Hin]]].
    + now rewrite (proj1 (no_number_with_separator b1 c Hin Hs)).
    + rewrite (proj1 (no_number_with_separator c1 c Hin Hs)).
      now destruct (int b1).
    + rewrite (proj2 (no_number_with_separator a1 c Hin Hs)).
      now destruct (int b1), (int c1).
Qed.

Lemma parse_line_fields_stripped_witness :
  parse_line true "1.0 , 0,  1" = parse_line true "1.0,0,1"
  /\ parse_line true "1.0,0,1" = Ok (1%float, 0, 1)
  /\ parse_line true ("1.0,0" ++ String (ascii_of_nat 28) ",1")%string
     = Raise ValueError.
Proof.
  destruct (parse_line_fields_stripped true "1.0 , 0,  1" "1.0,0,1"
              (of_string "1.0 ") (of_string " 0") (of_string "  1")
              (of_string "1.0") (of_string "0") (of_string "1"))
    as [H _]; try (vm_compute; reflexivity).
  destruct (parse_line_fields_stripped true
              ("1.0,0" ++ String (ascii_of_nat 28) ",1")%string
              ("1.0,0" ++ String (ascii_of_nat 28) ",1")%string
              (of_string "1.0") [ "0"%char; ascii_of_nat 28 ] (of_string "1")
              (of_string "1.0") [ "0"%char; ascii_of_nat 28 ] (of_string "1"))
    as [_ H']; try (vm_compute; reflexivity).
  split; [exact H|]. split; [vm_compute; reflexivity|].
  apply (H' (ascii_of_nat 28)); [vm_compute; reflexivity|].
  left. right. left. reflexivity.
Defined.

(* ================================================================== *)
(** * Further properties: graphs seen through their data *)
(* ================================================================== *)

Section MapValues.
Context {V W : Type} (f : V -> W).

Lemma get_map_values k (d : dict V) :
  get k (map_values f d) = option_map f (get k d).
Proof.
  induction d as [|[k' v] r IH]; simpl; [reflexivity|].
  now destruct (Z.eqb k k').
Qed.

Lemma set_map_values k v (d : dict V) :
  set k (f v) (map_values f d) = map_values f (set k v d).
Proof.
  induction d as [|[k' v'] r IH]; simpl; [reflexivity|].
  destruct (Z.eqb k k'); simpl; [reflexivity|]. now rewrite IH.
Qed.

Lemma keys_map_values (d : dict V) : keys (map_values f d) = keys d.
Proof.
  unfold keys, map_values. rewrite map_map. reflexivity.
Qed.

Lemma mem_map_values k (d : dict V) : mem k (map_values f d) = mem k d.
Proof. unfold mem. rewrite get_map_values. now destruct (get k d). Qed.
End MapValues.

Lemma dict_ext {V} (d : dict V) : forall d',
  keys d = keys d' -> NoDup (keys d) ->
  (forall k, get k d = get k d') -> d = d'.
Proof.
  induction d as [|[k v] r IH]; intros [|[k' v'] r'] Hk Hnd Hget;
    simpl in Hk; try discriminate; [reflexivity|].
  injection Hk as -> Hr. inversion Hnd as [|? ? Hnk Hndr]; subst.
  pose proof (Hget k') as H0. simpl in H0. rewrite Z.eqb_refl in H0.
  injection H0 as ->. f_equal. apply IH; [exact Hr | exact Hndr |].
  intros j. destruct (Z.eq_dec j k') as [->|Hne].
  - assert (H1 : get k' r = None) by now apply get_None_keys.
    assert (H2 : get k' r' = None)
      by (apply get_None_keys; now rewrite <- Hr).
    congruence.
  - specialize (Hget j). simpl in Hget.
    destruct (Z.eqb_spec j k'); [contradiction | exact Hget].
Qed.

Lemma nbrs_map_data f n (G : Graph) :
  nbrs n (map_data f G) = map_values f (nbrs n G).
Proof.
  unfold nbrs, map_data. rewrite get_map_values.
  now destruct (get n G).
Qed.

Lemma get_edge_data_map_data f u v (G : Graph) :
  get_edge_data u v (map_data f G) = option_map f (get_edge_data u v G).
Proof.
  unfold get_edge_data. now rewrite nbrs_map_data, get_map_values.
Qed.

Lemma keys_map_data f (G : Graph) : keys (map_data f G) = keys G.
Proof. apply keys_map_values. Qed.

Lemma edges_from_map_data f (G : Graph) : forall seen,
  edges_from seen (map_data f G)
  = map (fun e => (fst e, f (snd e))) (edges_from seen G).
Proof.
  induction G as [|[n nb] rest IH]; intros seen; simpl; [reflexivity|].
  rewrite map_app, map_map. fold (map_data f rest). rewrite IH. f_equal.
  clear. induction nb as [|[m d] r IHr]; simpl; [reflexivity|].
  destruct (negb (memb m seen)); simpl; now rewrite IHr.
Qed.

(** The edges of a graph whose attribute dicts went through [f]: the
    same pairs in the same order, each with [f] of its dict. *)
Lemma edges_map_data f (G : Graph) :
  edges (map_data f G) = map (fun e => (fst e, f (snd e))) (edges G).
Proof. apply edges_from_map_data. Qed.

Lemma graph_ext (G G' : Graph) :
  NoDup (keys G) ->
  (forall n, NoDup (keys (nbrs n G))) ->
  keys G' = keys G ->
  (forall n, keys (nbrs n G') = keys (nbrs n G)) ->
  (forall a b, get_edge_data a b G' = get_edge_data a b G) ->
  G' = G.
Proof.
  intros Hk Hi Hkeys Hnk Hd. symmetry.
  apply dict_ext; [now symmetry | exact Hk |].
  intros n.
  assert (Hn : nbrs n G = nbrs n G').
  { apply dict_ext; [now rewrite Hnk | apply Hi |].
    intros m. symmetry. apply Hd. }
  pose proof (mem_true_keys n G) as M. pose proof (mem_true_keys n G') as M'.
  rewrite Hkeys in M'. unfold mem, nbrs in *.
  destruct (get n G) as [x|], (get n G') as [x'|]; try congruence.
  - exfalso. assert (true = true) as T by reflexivity.
    apply M in T. apply M' in T. discriminate.
  - exfalso. assert (true = true) as T by reflexivity.
    apply M' in T. apply M in T. discriminate.
Qed.

(** ** [put_edge], the common end of [add_edge] and [copy_weight] *)

Lemma add_edge_put_edge u v w (G : Graph) :
  add_edge u v w G =
  put_edge u v (updated w (get_edge_data u v (add_node v (add_node u G))))
    (add_node v (add_node u G)).
Proof. reflexivity. Qed.

Lemma copy_weight_put_edge u v (G : Graph) :
  copy_weight u v G =
  match get_edge_data u v G with
  | Some d => put_edge u v (with_quadratic d) G
  | None => G
  end.
Proof. reflexivity. Qed.

Lemma get_edge_data_put_edge a b u v dd (G : Graph) :
  get_edge_data a b (put_edge u v dd G) =
  if same_pair (a, b) (u, v) then Some dd else get_edge_data a b G.
Proof.
  unfold put_edge, get_edge_data, same_pair; simpl.
  rewrite !nbrs_set.
  destruct (Z.eqb_spec a v) as [Eav|Hav], (Z.eqb_spec a u) as [Eau|Hau],
    (Z.eqb_spec b v) as [Ebv|Hbv], (Z.eqb_spec b u) as [Ebu|Hbu];
    subst; simpl;
    repeat first
      [ rewrite Z.eqb_refl
      | rewrite get_set_eq
      | rewrite nbrs_set
      | rewrite get_set_neq by congruence
      | match goal with
        | |- context [Z.eqb ?x ?y] =>
            destruct (Z.eqb_spec x y); [congruence|]
        end ];
    try reflexivity; try congruence.
Qed.

Lemma keys_put_edge u v dd (G : Graph) :
  mem u G = true -> mem v G = true ->
  keys (put_edge u v dd G) = keys G.
Proof.
  intros Hu Hv. unfold put_edge. rewrite !keys_set_mem; [reflexivity|exact Hu|].
  rewrite mem_set, Hv. apply orb_true_r.
Qed.

Lemma keys_nbrs_put_edge n u v dd (G : Graph) :
  mem v (nbrs u G) = true -> mem u (nbrs v G) = true ->
  keys (nbrs n (put_edge u v dd G)) = keys (nbrs n G).
Proof.
  intros Hv Hu. unfold put_edge. rewrite !nbrs_set.
  destruct (Z.eqb_spec n v) as [->|Hnv].
  - destruct (Z.eqb_spec v u) as [->|Hvu].
    + rewrite keys_set_mem; [now apply keys_set_mem|].
      unfold mem. now rewrite get_set_eq.
    + now apply keys_set_mem.
  - destruct (Z.eqb_spec n u) as [->|Hnu]; [|reflexivity].
    now apply keys_set_mem.
Qed.

(** ** The copy of the weights into ['quadratic'] *)

Lemma same_pair_data a b u v (G : Graph) :
  wf G -> same_pair (a, b) (u, v) = true ->
  get_edge_data a b G = get_edge_data u v G.
Proof.
  intros Hwf H. unfold same_pair in H. simpl in H.
  rewrite orb_true_iff, !andb_true_iff, !Z.eqb_eq in H.
  destruct H as [[-> ->]|[-> ->]]; [reflexivity | apply (wf_sym _ Hwf)].
Qed.

Lemma get_edge_data_copy_weight a b u v (G : Graph) :
  wf G ->
  get_edge_data a b (copy_weight u v G) =
  if same_pair (a, b) (u, v)
  then option_map with_quadratic (get_edge_data a b G)
  else get_edge_data a b G.
Proof.
  intros Hwf. rewrite copy_weight_put_edge.
  destruct (same_pair (a, b) (u, v)) eqn:S.
  - rewrite (same_pair_data _ _ _ _ _ Hwf S).
    destruct (get_edge_data u v G) as [d|] eqn:E.
    + now rewrite get_edge_data_put_edge, S.
    + rewrite (same_pair_data _ _ _ _ _ Hwf S). now rewrite E.
  - destruct (get_edge_data u v G) as [d|]; [|reflexivity].
    now rewrite get_edge_data_put_edge, S.
Qed.

Lemma get_edge_data_mem u v d (G : Graph) :
  get_edge_data u v G = Some d -> mem u G = true /\ mem v (nbrs u G) = true.
Proof.
  intros H. unfold mem. split.
  - destruct (get_edge_data_Some _ _ _ _ H) as [nb [-> _]]. reflexivity.
  - unfold get_edge_data in H. now rewrite H.
Qed.

Lemma shape_copy_weight u v (G : Graph) :
  wf G ->
  keys (copy_weight u v G) = keys G
  /\ forall n, keys (nbrs n (copy_weight u v G)) = keys (nbrs n G).
Proof.
  intros Hwf. rewrite copy_weight_put_edge.
  destruct (get_edge_data u v G) as [d|] eqn:E; [|split; reflexivity].
  assert (E' : get_edge_data v u G = Some d)
    by now rewrite (wf_sym _ Hwf).
  destruct (get_edge_data_mem _ _ _ _ E) as [Hu Hvu].
  destruct (get_edge_data_mem _ _ _ _ E') as [Hv Huv].
  split; [now apply keys_put_edge|].
  intros n. now apply keys_nbrs_put_edge.
Qed.

Lemma wf_copy_weight u v (G : Graph) : wf G -> wf (copy_weight u v G).
Proof.
  intros Hwf. destruct (shape_copy_weight u v G Hwf) as [Hk Hn].
  split.
  - rewrite Hk. apply (wf_keys _ Hwf).
  - intros n. rewrite Hn. apply (wf_inner _ Hwf).
  - intros a b. rewrite !get_edge_data_copy_weight by exact Hwf.
    rewrite (same_pair_swap b a), (wf_sym _ Hwf a b). reflexivity.
Qed.

Lemma with_quadratic_idem o :
  option_map with_quadratic (option_map with_quadratic o)
  = option_map with_quadratic o.
Proof. now destruct o. Qed.

(** The graph after the copy for a list of pairs: the same nodes and
    neighbours, and the attribute dict of the pairs of the list
    changed. *)
Lemma fold_copy_weight (es : list (Z * Z * datadict)) : forall G,
  wf G ->
  let G' := fold_left
              (fun G e => copy_weight (fst (fst e)) (snd (fst e)) G) es G in
  wf G'
  /\ keys G' = keys G
  /\ (forall n, keys (nbrs n G') = keys (nbrs n G))
  /\ (forall a b,
        get_edge_data a b G' =
        if existsb (fun e => same_pair (a, b) (fst e)) es
        then option_map with_quadratic (get_edge_data a b G)
        else get_edge_data a b G).
Proof.
  induction es as [|[[u v] d] r IH]; intros G Hwf; simpl.
  - repeat split; try reflexivity; apply Hwf.
  - destruct (shape_copy_weight u v G Hwf) as [Hk Hn].
    destruct (IH _ (wf_copy_weight u v G Hwf)) as [H1 [H2 [H3 H4]]].
    split; [exact H1|]. split; [now rewrite H2|].
    split; [intros n; now rewrite H3|].
    intros a b. rewrite H4, get_edge_data_copy_weight by exact Hwf.
    destruct (same_pair (a, b) (u, v)); simpl; [|reflexivity].
    rewrite with_quadratic_idem.
    now destruct (existsb (fun e => same_pair (a, b) (fst e)) r).
Qed.

(** After the loop every attribute dict has its weight as ['quadratic'];
    nothing else of the graph changes. *)
Lemma add_quadratic_map_data (G : Graph) :
  wf G -> add_quadratic G = map_data with_quadratic G.
Proof.
  intros Hwf. unfold add_quadratic.
  destruct (fold_copy_weight (edges G) G Hwf) as [_ [Hk [Hn Hd]]].
  apply graph_ext.
  - rewrite keys_map_data. apply (wf_keys _ Hwf).
  - intros n. rewrite nbrs_map_data, keys_map_values.
    apply (wf_inner _ Hwf).
  - now rewrite keys_map_data.
  - intros n. now rewrite nbrs_map_data, keys_map_values.
  - intros a b. rewrite Hd, get_edge_data_map_data.
    destruct (existsb (fun e => same_pair (a, b) (fst e)) (edges G)) eqn:Ex;
      [reflexivity|].
    destruct (get_edge_data a b G) as [d|] eqn:E; [|reflexivity].
    exfalso.
    assert (Hex : existsb (fun e => same_pair (a, b) (fst e)) (edges G)
                  = true).
    { apply existsb_exists.
      destruct (edges_complete _ _ _ _ Hwf E) as [Hin|Hin].
      - exists (a, b, d). split; [exact Hin | apply same_pair_refl].
      - exists (b, a, d). split; [exact Hin|]. simpl.
        rewrite same_pair_swap. apply same_pair_refl. }
    congruence.
Qed.

(** X4.  The loop that copies ['weight'] into ['quadratic'] changes
    nothing else of a loaded graph: the nodes and the edges are the same,
    in the same order; every edge keeps its weight and has it as
    ['quadratic'] as well, seen from either end; and [W], were it summed
    after the loop, would be what it was before. *)
Theorem quadratic_is_weight read path weighted impl G :
  load_graph read path weighted = Ok G ->
  keys (add_quadratic G) = keys G
  /\ map fst (edges (add_quadratic G)) = map fst (edges G)
  /\ map (fun e => weight (snd e)) (edges (add_quadratic G))
     = map (fun e => weight (snd e)) (edges G)
  /\ (forall u v d,
        get_edge_data u v (add_quadratic G) = Some d ->
        quadratic d = Some (weight d)
        /\ get_edge_data v u (add_quadratic G) = Some d
        /\ exists d0, get_edge_data u v G = Some d0 /\ weight d0 = weight d)
  /\ (forall u v d0,
        get_edge_data u v G = Some d0 ->
        get_edge_data u v (add_quadratic G)
        = Some (mkData (weight d0) (Some (weight d0))))
  /\ total_weight impl (add_quadratic G) = total_weight impl G.
Proof.
  intros Hload. pose proof (load_graph_wf _ _ _ _ Hload) as Hwf.
  rewrite (add_quadratic_map_data G Hwf).
  assert (Hw : map (fun e => weight (snd e))
                 (edges (map_data with_quadratic G))
               = map (fun e => weight (snd e)) (edges G)).
  { rewrite edges_map_data, map_map. apply map_ext. now intros [[u v] d]. }
  split; [apply keys_map_data|].
  split; [rewrite edges_map_data, map_map; apply map_ext; now intros [[u v] d]|].
  split; [exact Hw|].
  split; [|split].
  - intros u v d. rewrite !get_edge_data_map_data, (wf_sym _ Hwf v u).
    destruct (get_edge_data u v G) as [d0|]; [|discriminate].
    simpl. intros [= <-]. repeat split. now exists d0.
  - intros u v d0 E. now rewrite get_edge_data_map_data, E.
  - unfold total_weight. now rewrite Hw.
Qed.

Lemma quadratic_is_weight_witness :
  edges (add_quadratic triangle_graph)
  = [ (0, 1, mkData 1%float (Some 1%float));
      (0, 2, mkData 1.5%float (Some 1.5%float));
      (1, 2, mkData 2%float (Some 2%float)) ]
  /\ total_weight LeftToRight (add_quadratic triangle_graph)
     = total_weight LeftToRight triangle_graph.
Proof.
  destruct (quadratic_is_weight (only_file triangle_lines)
              (graph_file 10 3 2) true LeftToRight triangle_graph)
    as [_ [_ [_ [_ [_ H]]]]].
  - vm_compute. reflexivity.
  - split; [vm_compute; reflexivity | exact H].
Defined.

(** ** The two modes of loading *)

Lemma add_node_map_data f u (G : Graph) :
  add_node u (map_data f G) = map_data f (add_node u G).
Proof.
  unfold add_node, map_data. rewrite mem_map_values.
  destruct (mem u G); [reflexivity|].
  exact (set_map_values (map_values f) u [] G).
Qed.

Lemma set_map_data f u nb (G : Graph) :
  set u (map_values f nb) (map_data f G) = map_data f (set u nb G).
Proof. exact (set_map_values (map_values f) u nb G). Qed.

Lemma put_edge_map_data f u v dd (G : Graph) :
  put_edge u v (f dd) (map_data f G) = map_data f (put_edge u v dd G).
Proof.
  unfold put_edge.
  rewrite nbrs_map_data, set_map_values, set_map_data.
  rewrite nbrs_map_data, set_map_values, set_map_data.
  reflexivity.
Qed.

Lemma add_edge_unit_weight u v w (G : Graph) :
  add_edge u v 1%float (map_data with_unit_weight G)
  = map_data with_unit_weight (add_edge u v w G).
Proof.
  rewrite !add_edge_put_edge, !add_node_map_data, get_edge_data_map_data.
  rewrite <- put_edge_map_data. f_equal.
  now destruct (get_edge_data u v (add_node v (add_node u G))).
Qed.

Lemma fold_unit_weight ts : forall G,
  fold_left add_parsed (map unit_line ts) (map_data with_unit_weight G)
  = map_data with_unit_weight (fold_left add_parsed ts G).
Proof.
  induction ts as [|[[w u] v] r IH]; intros G; simpl; [reflexivity|].
  unfold add_parsed at 2 4. simpl.
  now rewrite (add_edge_unit_weight u v w), IH.
Qed.

Lemma parse_line_unit weighted line t :
  parse_line weighted line = Ok t ->
  parse_line false line = Ok (unit_line t).
Proof.
  unfold parse_line, unit_line.
  destruct (split "," (strip (of_string line))) as [|a [|b [|c [|? ?]]]];
    try discriminate.
  destruct (int b), (int c); try discriminate.
  destruct weighted; [|now intros [= <-]].
  destruct (float a); [|discriminate]. now intros [= <-].
Qed.

(** X5.  A file that loads in weighted mode loads in unweighted mode too,
    into the same graph but for the weights: the same nodes in the same
    order, and the same edges in the same order, each with weight
    [1.0]. *)
Theorem unweighted_same_graph read path G :
  load_graph read path true = Ok G ->
  load_graph read path false = Ok (map_data with_unit_weight G)
  /\ keys (map_data with_unit_weight G) = keys G
  /\ map fst (edges (map_data with_unit_weight G)) = map fst (edges G)
  /\ forall e, In e (edges (map_data with_unit_weight G)) ->
               weight (snd e) = 1%float.
Proof.
  unfold load_graph. destruct (read path) as [lines|]; [|discriminate].
  intros Hload.
  destruct (load_lines_Ok_inv _ _ _ _ Hload) as [ts [Hts ->]].
  split; [|split; [|split]].
  - rewrite (load_lines_fold false lines (map unit_line ts)).
    + f_equal. apply (fold_unit_weight ts empty).
    + clear -Hts. induction Hts as [|l t r ts Hl _ IH]; constructor;
        [exact (parse_line_unit _ _ _ Hl) | exact IH].
  - apply keys_map_data.
  - rewrite edges_map_data, map_map. reflexivity.
  - intros e. rewrite edges_map_data, in_map_iff.
    intros [e' [<- _]]. reflexivity.
Qed.

Lemma unweighted_same_graph_witness :
  load_graph (only_file triangle_lines) (graph_file 10 3 2) false
  = Ok (map_data with_unit_weight triangle_graph)
  /\ map fst (edges (map_data with_unit_weight triangle_graph))
     = [(0, 1); (0, 2); (1, 2)].
Proof.
  destruct (unweighted_same_graph (only_file triangle_lines)
              (graph_file 10 3 2) triangle_graph) as [H1 [_ [H3 _]]].
  - vm_compute. reflexivity.
  - split; [exact H1 | exact H3].
Defined.

(** ** Nodes and lookups of a loaded graph *)

Lemma mem_add_edge a u v w (G : Graph) :
  mem a (add_edge u v w G) = Z.eqb a u || Z.eqb a v || mem a G.
Proof.
  apply eq_true_iff_eq.
  rewrite mem_true_keys, keys_add_edge, <- mem_true_keys.
  rewrite !mem_add_node.
  destruct (Z.eqb a u), (Z.eqb a v), (mem a G); simpl; tauto.
Qed.

Lemma mem_fold a ts : forall G,
  mem a (fold_left add_parsed ts G)
  = mem a G || existsb (fun t => memb a (nodes_of t)) ts.
Proof.
  induction ts as [|t r IH]; intros G; simpl.
  - now rewrite orb_false_r.
  - rewrite IH. unfold add_parsed. rewrite mem_add_edge.
    unfold nodes_of, memb. simpl.
    destruct (Z.eqb a (snd (fst t))), (Z.eqb a (snd t)), (mem a G);
      reflexivity.
Qed.

(** X6.  The nodes of a loaded graph are the nodes its lines name, each
    once; every edge joins two of them; and there are no more edges than
    lines. *)
Theorem loaded_nodes read path weighted lines G :
  read path = Some lines ->
  load_graph read path weighted = Ok G ->
  exists ts,
    Forall2 (fun l t => parse_line weighted l = Ok t) lines ts
    /\ NoDup (keys G)
    /\ (forall n, In n (keys G) <-> In n (flat_map nodes_of ts))
    /\ (forall a b d, In (a, b, d) (edges G) ->
                      In a (keys G) /\ In b (keys G))
    /\ (List.length (edges G) <= List.length lines)%nat.
Proof.
  intros Hread Hload. pose proof (load_graph_wf _ _ _ _ Hload) as Hwf.
  unfold load_graph in Hload. rewrite Hread in Hload.
  destruct (load_lines_Ok_inv _ _ _ _ Hload) as [ts [Hts ->]].
  exists ts. split; [exact Hts|]. split; [apply (wf_keys _ Hwf)|].
  assert (Hnodes : forall n,
             In n (keys (fold_left add_parsed ts empty))
             <-> In n (flat_map nodes_of ts)).
  { intros n. rewrite <- mem_true_keys, mem_fold.
    change (mem n empty) with false. cbn [orb].
    rewrite existsb_exists, in_flat_map. split.
    - intros [t [Ht Hm]]. exists t. split; [exact Ht|].
      now apply memb_true.
    - intros [t [Ht Hm]]. exists t. split; [exact Ht|].
      now apply memb_true. }
  split; [exact Hnodes|]. split.
  - intros a b d Hin.
    pose proof (edges_sound _ _ _ _ Hwf Hin) as Hab.
    assert (Hba : get_edge_data b a (fold_left add_parsed ts empty)
                  = Some d) by now rewrite (wf_sym _ Hwf).
    destruct (get_edge_data_mem _ _ _ _ Hab) as [Ha _].
    destruct (get_edge_data_mem _ _ _ _ Hba) as [Hb _].
    split; now apply mem_true_keys.
  - rewrite number_of_edges, (Forall2_length Hts).
    rewrite <- (length_map (fun t => norm (pair_of t)) ts).
    apply NoDup_incl_length; [apply NoDup_nodup|].
    intros p Hp. now apply nodup_In in Hp.
Qed.

Lemma loaded_nodes_witness :
  NoDup (keys (loaded true repeated_lines))
  /\ keys (loaded true repeated_lines) = [0; 1; 2]
  /\ (List.length (edges (loaded true repeated_lines)) <= 3)%nat.
Proof.
  destruct (loaded_nodes (only_file repeated_lines) (graph_file 10 3 2)
              true repeated_lines (loaded true repeated_lines))
    as [ts [_ [H1 [_ [_ H4]]]]].
  - vm_compute. reflexivity.
  - vm_compute. reflexivity.
  - split; [exact H1|]. split; [vm_compute; reflexivity | exact H4].
Defined.

(** X7.  In a loaded graph the attribute dict of [u]-[v] is the one of
    [v]-[u]; it exists exactly when some line names the two nodes, in
    either order; and the edges listed are the pairs that have one. *)
Theorem loaded_lookup read path weighted lines G :
  read path = Some lines ->
  load_graph read path weighted = Ok G ->
  exists ts,
    Forall2 (fun l t => parse_line weighted l = Ok t) lines ts
    /\ (forall u v, get_edge_data u v G = get_edge_data v u G)
    /\ (forall u v,
          is_some (get_edge_data u v G)
          = existsb (fun t => same_pair (u, v) (pair_of t)) ts)
    /\ (forall u v d,
          get_edge_data u v G = Some d <->
          In (u, v, d) (edges G) \/ In (v, u, d) (edges G)).
Proof.
  intros Hread Hload. pose proof (load_graph_wf _ _ _ _ Hload) as Hwf.
  unfold load_graph in Hload. rewrite Hread in Hload.
  destruct (load_lines_Ok_inv _ _ _ _ Hload) as [ts [Hts ->]].
  exists ts. split; [exact Hts|]. split; [apply (wf_sym _ Hwf)|]. split.
  - intros u v. now rewrite get_edge_data_fold_iff.
  - intros u v d. split; [now apply edges_complete|].
    intros [H|H]; [now apply edges_sound|].
    rewrite (wf_sym _ Hwf). now apply edges_sound.
Qed.

Lemma loaded_lookup_witness :
  get_edge_data 0 1 (loaded true repeated_lines)
  = get_edge_data 1 0 (loaded true repeated_lines)
  /\ is_some (get_edge_data 2 0 (loaded true repeated_lines)) = false.
Proof.
  destruct (loaded_lookup (only_file repeated_lines) (graph_file 10 3 2)
              true repeated_lines (loaded true repeated_lines))
    as [ts [_ [H1 _]]].
  - vm_compute. reflexivity.
  - vm_compute. reflexivity.
  - split; [apply H1 | vm_compute; reflexivity].
Defined.

(* ================================================================== *)
(** * Further properties: runs *)
(* ================================================================== *)

(** X8.  When the graph file of the run does not exist, [load_graph]
    raises [FileNotFoundError] and the run ends with it: the output
    directory has been made, nothing is written and nothing printed. *)
Theorem missing_file_fatal read solve impl N k seed weighted w :
  read (graph_file N k seed) = None ->
  load_graph read (graph_file N k seed) weighted = Raise FileNotFoundError
  /\ run_solver read solve impl N k seed weighted w
     = (Raise FileNotFoundError,
        mkWorld (files w) (dirs w ++ [output_dir N k]) (stdout w)).
Proof.
  intros Hread.
  assert (Hload : load_graph read (graph_file N k seed) weighted
                  = Raise FileNotFoundError)
    by (unfold load_graph; now rewrite Hread).
  split; [exact Hload|]. now apply run_solver_failed.
Qed.

Lemma missing_file_fatal_witness :
  run_solver (only_file triangle_lines) triangle_solve LeftToRight
    10 3 7 true initial
  = (Raise FileNotFoundError, mkWorld [] [output_dir 10 3] []).
Proof.
  apply (missing_file_fatal (only_file triangle_lines) triangle_solve
           LeftToRight 10 3 7 true initial).
  vm_compute. reflexivity.
Defined.

(** X9.  An empty graph file is no error.  The graph has no node and no
    edge, [W] is the [int] 0 (and so is written as an integer), the
    solver gets the model with no variable, and a sample it returns all
    the same gives the cut value [(0 - E) / 2]. *)
Theorem empty_file_run read solve impl N k seed weighted :
  read (graph_file N k seed) = Some [] ->
  let r := run_solver read solve impl N k seed weighted initial in
  load_graph read (graph_file N k seed) weighted = Ok empty
  /\ from_networkx_graph (add_quadratic empty) = mkBQM [] []
  /\ fst r = Ok tt
  /\ files (snd r) =
     (sumweights_file N k seed, Text [FNum (PyInt 0); Lit newline])
     :: match solve (mkBQM [] []) with
        | (_, E) :: _ =>
            [(out_file N k seed weighted,
              Json (savedict N k seed weighted (PyInt 0) E
                      ((0 - E) / 2)%float))]
        | [] => []
        end.
Proof.
  intros Hread r.
  assert (Hload : load_graph read (graph_file N k seed) weighted = Ok empty)
    by (unfold load_graph; now rewrite Hread).
  subst r.
  rewrite (run_solver_loaded read solve impl _ _ _ _ _ initial Hload).
  split; [exact Hload|]. repeat split.
Qed.

Lemma empty_file_run_witness :
  files (snd (run_solver (only_file []) triangle_solve Compensated
                10 3 2 true initial))
  = [ (sumweights_file 10 3 2, Text [FNum (PyInt 0); Lit newline]);
      (out_file 10 3 2 true,
       Json (savedict 10 3 2 true (PyInt 0) (-4.5)%float 2.25%float)) ].
Proof.
  destruct (empty_file_run (only_file []) triangle_solve Compensated
              10 3 2 true) as [_ [_ [_ H]]].
  - vm_compute. reflexivity.
  - exact H.
Defined.

(** ** The names of the files *)

Lemma append_assoc (a b c : string) :
  ((a ++ b) ++ c)%string = (a ++ (b ++ c))%string.
Proof. induction a as [|x a IH]; simpl; [reflexivity | now rewrite IH]. Qed.

Lemma append_cancel_l (a x y : string) :
  (a ++ x)%string = (a ++ y)%string -> x = y.
Proof.
  induction a as [|c a IH]; simpl; [tauto|]. intros [= H]. now apply IH.
Qed.

(** [os.path.join] of a directory that ends with a slash and a name that
    does not start with one. *)
Lemma path_join_dir (x b : string) c :
  Ascii.eqb c "/" = false ->
  path_join (x ++ "/")%string (String c b)
  = ((x ++ "/") ++ String c b)%string.
Proof.
  intros Hc. unfold path_join.
  rewrite of_string_app, rev_app_distr. simpl rev. simpl app.
  destruct c as [[] [] [] [] [] [] [] []]; try reflexivity.
  discriminate Hc.
Qed.

Lemma graph_path_dir N k :
  graph_path N k
  = (("/Users/guillermo.preisser/Projects/QiILS/graphs/"
        ++ str N ++ "/" ++ str k) ++ "/")%string.
Proof. unfold graph_path. now rewrite !append_assoc. Qed.

Lemma output_dir_dir N k :
  output_dir N k
  = (("/Users/guillermo.preisser/Projects/QiILS/solutions/random_regular/"
        ++ str N ++ "/" ++ str k) ++ "/")%string.
Proof. unfold output_dir. now rewrite !append_assoc. Qed.

Lemma graph_file_eq N k seed :
  graph_file N k seed
  = (graph_path N k ++ "graph" ++ tag N k seed seed ++ ".txt")%string.
Proof.
  unfold graph_file. rewrite graph_path_dir.
  change ("graph" ++ tag N k seed seed ++ ".txt")%string
    with (String "g" ("raph" ++ tag N k seed seed ++ ".txt")%string).
  now rewrite path_join_dir.
Qed.

Lemma sumweights_file_eq N k seed :
  sumweights_file N k seed
  = (output_dir N k ++ "sumweights" ++ tag N k seed seed ++ ".txt")%string.
Proof.
  unfold sumweights_file. rewrite output_dir_dir.
  change ("sumweights" ++ tag N k seed seed ++ ".txt")%string
    with (String "s" ("umweights" ++ tag N k seed seed ++ ".txt")%string).
  now rewrite path_join_dir.
Qed.

Lemma out_file_eq N k seed weighted :
  out_file N k seed weighted
  = (output_dir N k ++ "akmaxdata" ++ tag N k seed seed ++ "_"
       ++ (if weighted then "weighted" else "unweighted") ++ ".json")%string.
Proof.
  unfold out_file. rewrite output_dir_dir.
  set (rest := (tag N k seed seed ++ "_"
                  ++ (if weighted then "weighted" else "unweighted")
                  ++ ".json")%string).
  change ("akmaxdata" ++ rest)%string
    with (String "a" ("kmaxdata" ++ rest)%string).
  now rewrite path_join_dir.
Qed.

Lemma sumweights_not_graph N k seed N' k' seed' :
  sumweights_file N k seed <> graph_file N' k' seed'.
Proof.
  rewrite sumweights_file_eq, graph_file_eq. unfold output_dir, graph_path.
  simpl. discriminate.
Qed.

Lemma out_not_graph N k seed weighted N' k' seed' :
  out_file N k seed weighted <> graph_file N' k' seed'.
Proof.
  rewrite out_file_eq, graph_file_eq. unfold output_dir, graph_path.
  simpl. discriminate.
Qed.

Lemma sumweights_not_debug N k seed : sumweights_file N k seed <> debug_path.
Proof.
  rewrite sumweights_file_eq. unfold output_dir, debug_path.
  simpl. discriminate.
Qed.

Lemma out_not_debug N k seed weighted :
  out_file N k seed weighted <> debug_path.
Proof.
  rewrite out_file_eq. unfold output_dir, debug_path. simpl. discriminate.
Qed.

Lemma graph_not_debug N k seed : graph_file N k seed <> debug_path.
Proof.
  rewrite graph_file_eq. unfold graph_path, debug_path. simpl. discriminate.
Qed.

Lemma out_not_sumweights N k seed weighted :
  out_file N k seed weighted <> sumweights_file N k seed.
Proof.
  rewrite out_file_eq, sumweights_file_eq. intros H.
  apply append_cancel_l in H. discriminate H.
Qed.

Lemma out_file_modes N k seed :
  out_file N k seed true <> out_file N k seed false.
Proof.
  rewrite !out_file_eq. intros H.
  do 4 apply append_cancel_l in H. discriminate H.
Qed.

(** What a run writes, whether its graph loads or not. *)
Lemma run_solver_files read solve impl N k seed weighted w :
  exists l,
    files (snd (run_solver read solve impl N k seed weighted w))
    = files w ++ l
    /\ forall path c, In (path, c) l ->
         path = sumweights_file N k seed
         \/ path = out_file N k seed weighted.
Proof.
  destruct (load_graph read (graph_file N k seed) weighted) as [G|e] eqn:E.
  - rewrite (run_solver_loaded read solve impl _ _ _ _ _ w E).
    eexists. split; [reflexivity|].
    intros path c [H|H]; [injection H as <- _; now left|].
    destruct (solve (from_networkx_graph (add_quadratic G))) as [|[s E0] r];
      [destruct H|].
    destruct H as [H|[]]. injection H as <- _. now right.
  - rewrite (run_solver_failed read solve impl _ _ _ _ _ w E).
    exists []. split; [simpl; now rewrite app_nil_r | intros ? ? []].
Qed.

(** X10.  A run writes under two names only, the [W] file and the result
    record, which never are the graph file of any run nor the graph
    loaded at the end of the module: no run overwrites an input. *)
Theorem run_never_writes_inputs
    read solve impl N k seed weighted path c N' k' seed' :
  In (path, c)
     (files (snd (run_solver read solve impl N k seed weighted initial))) ->
  (path = sumweights_file N k seed \/ path = out_file N k seed weighted)
  /\ path <> graph_file N' k' seed'
  /\ path <> debug_path.
Proof.
  intros Hin.
  destruct (run_solver_files read solve impl N k seed weighted initial)
    as [l [Hl Hnames]].
  rewrite Hl in Hin. simpl in Hin.
  destruct (Hnames _ _ Hin) as [->| ->].
  - split; [now left|]. split;
      [apply sumweights_not_graph | apply sumweights_not_debug].
  - split; [now right|]. split; [apply out_not_graph | apply out_not_debug].
Qed.

Lemma run_never_writes_inputs_witness :
  sumweights_file 10 3 2 <> graph_file 10 3 2
  /\ sumweights_file 10 3 2 <> debug_path.
Proof.
  destruct (run_never_writes_inputs (only_file triangle_lines)
              triangle_solve LeftToRight 10 3 2 true
              (sumweights_file 10 3 2)
              (Text [FNum (PyFloat 4.5%float); Lit newline]) 10 3 2)
    as [_ H].
  - vm_compute. left. reflexivity.
  - exact H.
Defined.

(** X11.  The two modes of a run write their records under different names,
    neither of which is the name of the [W] file, which is the same for
    both modes. *)
Theorem record_names_by_mode
    read solve impl N k seed weighted G E s rest :
  load_graph read (graph_file N k seed) weighted = Ok G ->
  solve (from_networkx_graph (add_quadratic G)) = (s, E) :: rest ->
  map fst
    (files (snd (run_solver read solve impl N k seed weighted initial)))
  = [sumweights_file N k seed; out_file N k seed weighted]
  /\ out_file N k seed weighted <> out_file N k seed (negb weighted)
  /\ out_file N k seed weighted <> sumweights_file N k seed.
Proof.
  intros Hload Hdata.
  rewrite (run_solver_loaded read solve impl _ _ _ _ _ initial Hload).
  rewrite Hdata. split; [reflexivity|]. split.
  - destruct weighted; simpl; [|intros H; symmetry in H; revert H];
      apply out_file_modes.
  - apply out_not_sumweights.
Qed.

Lemma record_names_by_mode_witness :
  map fst
    (files (snd (run_solver (only_file triangle_lines) triangle_solve
                   LeftToRight 10 3 2 false initial)))
  = [sumweights_file 10 3 2; out_file 10 3 2 false]
  /\ out_file 10 3 2 false <> out_file 10 3 2 true.
Proof.
  destruct (record_names_by_mode (only_file triangle_lines) triangle_solve
              LeftToRight 10 3 2 false (loaded false triangle_lines)
              (-4.5)%float [(0, -1); (1, 1); (2, -1)] [])
    as [H1 [H2 _]].
  - vm_compute. reflexivity.
  - reflexivity.
  - split; [exact H1 | exact H2].
Defined.

(** ** The batch and the module *)

Section BatchFacts.

Variable read : string -> option (list string).
Variable solve : BQM -> list (sample * PrimFloat.float).
Variable impl : sum_impl.

Lemma for_each_app {A} (body : A -> M unit) l1 : forall l2 w,
  for_each (l1 ++ l2) body w =
  match for_each l1 body w with
  | (Ok _, w1) => for_each l2 body w1
  | (Raise e, w1) => (Raise e, w1)
  end.
Proof.
  induction l1 as [|a r IH]; intros l2 w; cbn [for_each app].
  - reflexivity.
  - unfold bind. destruct (body a w) as [[[]|e] w1]; [apply IH|].
    reflexivity.
Qed.

Lemma batch_app pre post N k weighted w :
  batch read solve impl (pre ++ post) N k weighted w =
  match batch read solve impl pre N k weighted w with
  | (Ok _, w1) => batch read solve impl post N k weighted w1
  | (Raise e, w1) => (Raise e, w1)
  end.
Proof. apply for_each_app. Qed.

(** One turn of the batch: the header, then the run. *)
Lemma batch_cons seed rest N k weighted w :
  batch read solve impl (seed :: rest) N k weighted w =
  match run_solver read solve impl N k seed weighted
          (mkWorld (files w) (dirs w)
             (stdout w ++ [header N k seed weighted])) with
  | (Ok _, w1) => batch read solve impl rest N k weighted w1
  | (Raise e, w1) => (Raise e, w1)
  end.
Proof.
  unfold batch. cbn [for_each]. unfold bind, print.
  now destruct (run_solver read solve impl N k seed weighted _)
    as [[[]|e] w1].
Qed.

Lemma batch_loads seeds N k weighted : forall w,
  (forall s, In s seeds ->
     exists G, load_graph read (graph_file N k s) weighted = Ok G) ->
  fst (batch read solve impl seeds N k weighted w) = Ok tt
  /\ exists l,
       files (snd (batch read solve impl seeds N k weighted w))
       = files w ++ l.
Proof.
  induction seeds as [|s r IH]; intros w Hall.
  - split; [reflexivity|]. exists []. simpl. now rewrite app_nil_r.
  - rewrite batch_cons.
    destruct (Hall s (or_introl eq_refl)) as [G HG].
    rewrite (run_solver_loaded read solve impl _ _ _ _ _ _ HG).
    match goal with |- context [batch _ _ _ r N k weighted ?w1] =>
      destruct (IH w1) as [H1 [l Hl]] end.
    { intros s' Hs'. apply Hall. now right. }
    split; [exact H1|]. rewrite Hl. cbn [files].
    rewrite <- app_assoc. eexists. reflexivity.
Qed.

(** X12.  The batch stops at the first seed whose graph does not load: it
    ends with the exception of that load, having printed the header of
    that seed and made its output directory; what the seeds before it
    wrote stays, and no later seed is run. *)
Theorem batch_stops_at_first_failure pre s post N k weighted e w :
  (forall s', In s' pre ->
     exists G, load_graph read (graph_file N k s') weighted = Ok G) ->
  load_graph read (graph_file N k s) weighted = Raise e ->
  let r0 := batch read solve impl pre N k weighted w in
  fst r0 = Ok tt
  /\ batch read solve impl (pre ++ s :: post) N k weighted w
     = (Raise e,
        mkWorld (files (snd r0))
          (dirs (snd r0) ++ [output_dir N k])
          (stdout (snd r0) ++ [header N k s weighted])).
Proof.
  intros Hpre Hs r0. subst r0.
  destruct (batch_loads pre N k weighted w Hpre) as [H0 _].
  split; [exact H0|].
  rewrite batch_app.
  destruct (batch read solve impl pre N k weighted w) as [[[]|e0] w1];
    [|discriminate H0].
  rewrite batch_cons.
  now rewrite (run_solver_failed read solve impl _ _ _ _ _ _ Hs).
Qed.

(** X13.  A batch whose graphs all load ends normally and, for every seed,
    has written the [W] file of that seed with the total weight of its
    graph. *)
Theorem batch_writes_every_seed seeds N k weighted w :
  (forall s, In s seeds ->
     exists G, load_graph read (graph_file N k s) weighted = Ok G) ->
  fst (batch read solve impl seeds N k weighted w) = Ok tt
  /\ forall s G, In s seeds ->
       load_graph read (graph_file N k s) weighted = Ok G ->
       In (sumweights_file N k s,
           Text [FNum (total_weight impl G); Lit newline])
          (files (snd (batch read solve impl seeds N k weighted w))).
Proof.
  intros Hall. split; [now apply batch_loads|].
  intros s G Hin HG. apply in_split in Hin. destruct Hin as [pre [post ->]].
  rewrite batch_app.
  destruct (batch_loads pre N k weighted w) as [H0 _].
  { intros s' Hs'. apply Hall, in_or_app. now left. }
  destruct (batch read solve impl pre N k weighted w) as [[[]|e0] w1];
    [|discriminate H0].
  rewrite batch_cons.
  rewrite (run_solver_loaded read solve impl _ _ _ _ _ _ HG).
  match goal with |- context [batch _ _ _ post N k weighted ?w2] =>
    destruct (batch_loads post N k weighted w2) as [_ [l Hl]] end.
  { intros s' Hs'. apply Hall, in_or_app. right. now right. }
  rewrite Hl. cbn [files]. apply in_or_app. left.
  apply in_or_app. right. now left.
Qed.

(** X14.  The module ends with the load of the graph at [debug_path].  Run
    as a script whose batch (the one seed 2) loads its graph, it ends
    with [FileNotFoundError] when that file is absent, after the outputs
    of the batch have been written; imported, it writes and prints
    nothing and raises what the load raises. *)
Theorem module_ends_with_debug_load G :
  load_graph read (graph_file 10 3 2) true = Ok G ->
  read debug_path = None ->
  let r := module read solve impl true initial in
  fst r = Raise FileNotFoundError
  /\ snd r = snd (run_solver read solve impl 10 3 2 true
                    (mkWorld [] [] [header 10 3 2 true]))
  /\ In (sumweights_file 10 3 2,
         Text [FNum (total_weight impl G); Lit newline]) (files (snd r))
  /\ forall w, module read solve impl false w = (Raise FileNotFoundError, w).
Proof.
  intros HG Hdebug r.
  assert (Hload : load_graph read debug_path true = Raise FileNotFoundError)
    by (unfold load_graph; now rewrite Hdebug).
  assert (Hmain : main read solve impl initial
                  = (Ok tt,
                     snd (run_solver read solve impl 10 3 2 true
                            (mkWorld [] [] [header 10 3 2 true])))).
  { unfold main. change (range 2 3) with [2]. rewrite batch_cons.
    cbn [files dirs stdout initial app].
    rewrite (run_solver_loaded read solve impl _ _ _ _ _ _ HG).
    reflexivity. }
  assert (Hr : r = (Raise FileNotFoundError,
                    snd (run_solver read solve impl 10 3 2 true
                           (mkWorld [] [] [header 10 3 2 true])))).
  { subst r. unfold module, bind, lift. now rewrite Hmain, Hload. }
  rewrite Hr. cbn [fst snd]. split; [reflexivity|]. split; [reflexivity|].
  split.
  - rewrite (run_solver_loaded read solve impl _ _ _ _ _ _ HG).
    cbn [snd files app]. now left.
  - intros w. unfold module, bind, lift, ret. now rewrite Hload.
Qed.

End BatchFacts.

Lemma batch_stops_at_first_failure_witness :
  fst (batch (only_file triangle_lines) no_samples LeftToRight
         ([2] ++ 5 :: [2]) 10 3 true initial)
  = Raise FileNotFoundError
  /\ map fst
       (files (snd (batch (only_file triangle_lines) no_samples LeftToRight
                      ([2] ++ 5 :: [2]) 10 3 true initial)))
     = [sumweights_file 10 3 2].
Proof.
  destruct (batch_stops_at_first_failure (only_file triangle_lines)
              no_samples LeftToRight [2] 5 [2] 10 3 true FileNotFoundError
              initial) as [_ H].
  - intros s' [<-|[]]. exists triangle_graph. vm_compute. reflexivity.
  - vm_compute. reflexivity.
  - rewrite H. split; [reflexivity|]. vm_compute. reflexivity.
Defined.

Lemma batch_writes_every_seed_witness :
  fst (batch (only_file triangle_lines) no_samples Compensated [2; 2]
         10 3 true initial) = Ok tt.
Proof.
  destruct (batch_writes_every_seed (only_file triangle_lines) no_samples
              Compensated [2; 2] 10 3 true initial) as [H _].
  - intros s [<-|[<-|[]]]; exists triangle_graph; vm_compute; reflexivity.
  - exact H.
Defined.

Lemma module_ends_with_debug_load_witness :
  fst (module (only_file triangle_lines) triangle_solve LeftToRight true
         initial) = Raise FileNotFoundError
  /\ module (only_file triangle_lines) triangle_solve LeftToRight false
       initial = (Raise FileNotFoundError, initial).
Proof.
  destruct (module_ends_with_debug_load (only_file triangle_lines)
              triangle_solve LeftToRight triangle_graph) as [H1 [_ [_ H4]]].
  - vm_compute. reflexivity.
  - vm_compute. reflexivity.
  - split; [exact H1 | apply H4].
Defined.

(* ================================================================== *)
(** * Further properties: edges again, and partitions *)
(* ================================================================== *)

(** Setting the two entries of an edge to the dict they hold changes
    nothing. *)
Lemma put_edge_same u v d (G : Graph) :
  wf G -> get_edge_data u v G = Some d -> put_edge u v d G = G.
Proof.
  intros Hwf E.
  assert (E' : get_edge_data v u G = Some d) by now rewrite (wf_sym _ Hwf).
  destruct (get_edge_data_mem _ _ _ _ E) as [Hu Hvu].
  destruct (get_edge_data_mem _ _ _ _ E') as [Hv Huv].
  apply graph_ext.
  - apply (wf_keys _ Hwf).
  - apply (wf_inner _ Hwf).
  - now apply keys_put_edge.
  - intros n. now apply keys_nbrs_put_edge.
  - intros a b. rewrite get_edge_data_put_edge.
    destruct (same_pair (a, b) (u, v)) eqn:S; [|reflexivity].
    now rewrite (same_pair_data _ _ _ _ _ Hwf S).
Qed.

Lemma add_node_mem u (G : Graph) : mem u G = true -> add_node u G = G.
Proof. intros H. unfold add_node. now rewrite H. Qed.

Lemma add_edge_same u v w d (G : Graph) :
  wf G -> get_edge_data u v G = Some d -> weight d = w ->
  add_edge u v w G = G.
Proof.
  intros Hwf E Hw.
  assert (E' : get_edge_data v u G = Some d) by now rewrite (wf_sym _ Hwf).
  destruct (get_edge_data_mem _ _ _ _ E) as [Hu _].
  destruct (get_edge_data_mem _ _ _ _ E') as [Hv _].
  rewrite add_edge_put_edge, (add_node_mem u G Hu), (add_node_mem v G Hv).
  rewrite E. unfold updated. subst w.
  replace (mkData (weight d) (quadratic d)) with d by now destruct d.
  now apply put_edge_same.
Qed.

(** X15.  One more line for an edge the graph has, with the weight it has,
    changes nothing: the file with that line added loads into the same
    graph. *)
Theorem repeated_line_harmless read path path' weighted lines line G w u v d :
  read path = Some lines ->
  read path' = Some (lines ++ [line]) ->
  load_graph read path weighted = Ok G ->
  parse_line weighted line = Ok (w, u, v) ->
  get_edge_data u v G = Some d ->
  weight d = w ->
  load_graph read path' weighted = Ok G.
Proof.
  intros Hread Hread' Hload Hline Hd Hw.
  pose proof (load_graph_wf _ _ _ _ Hload) as Hwf.
  unfold load_graph in *. rewrite Hread in Hload. rewrite Hread'.
  rewrite load_lines_app, Hload. simpl. rewrite Hline. f_equal.
  now apply (add_edge_same u v w d).
Qed.

(** X16.  Every edge of a loaded graph carries the weight read from a line
    that names its two nodes: no other weight gets into the graph. *)
Theorem loaded_weights_from_file read path weighted lines G a b d :
  read path = Some lines ->
  load_graph read path weighted = Ok G ->
  In (a, b, d) (edges G) ->
  exists line w u v,
    In line lines
    /\ parse_line weighted line = Ok (w, u, v)
    /\ same_pair (a, b) (u, v) = true
    /\ weight d = w.
Proof.
  intros Hread Hload Hin. pose proof (load_graph_wf _ _ _ _ Hload) as Hwf.
  apply (edges_sound _ _ _ _ Hwf) in Hin.
  unfold load_graph in Hload. rewrite Hread in Hload. clear Hread Hwf.
  revert G d Hload Hin. induction lines as [|line r IH] using rev_ind;
    intros G d Hload Hin.
  - injection Hload as <-. discriminate Hin.
  - rewrite load_lines_app in Hload.
    destruct (load_lines weighted r empty) as [G1|e] eqn:E1; [|discriminate].
    simpl in Hload.
    destruct (parse_line weighted line) as [[[w u] v]|e] eqn:El;
      [|discriminate].
    injection Hload as <-. rewrite get_edge_data_add_edge in Hin.
    destruct (same_pair (a, b) (u, v)) eqn:S.
    + exists line, w, u, v. split; [apply in_or_app; right; now left|].
      split; [exact El|]. split; [exact S|].
      injection Hin as <-. unfold updated.
      now destruct (get_edge_data u v G1).
    + destruct (IH G1 d eq_refl Hin) as [l' [w' [u' [v' [H1 H2]]]]].
      exists l', w', u', v'. split; [apply in_or_app; now left | exact H2].
Qed.

Lemma in_off_domain (s : sample) n :
  In n (off_domain s) <->
  exists v, In (n, v) s /\ v <> -1 /\ v <> 1.
Proof.
  unfold off_domain. rewrite in_map_iff. split.
  - intros [[m v] [E H]]. simpl in E. subst m.
    apply filter_In in H. destruct H as [H Hv]. simpl in Hv.
    exists v. split; [exact H|].
    destruct (Z.eqb_spec v (-1)), (Z.eqb_spec v 1); simpl in Hv;
      try discriminate. now split.
  - intros [v [H [H1 H2]]]. exists (n, v). split; [reflexivity|].
    apply filter_In. split; [exact H|]. simpl.
    destruct (Z.eqb_spec v (-1)), (Z.eqb_spec v 1); simpl; congruence.
Qed.

(** X17.  The nodes of a sample go, in the order of the sample and once for
    each entry, to [S0], to [S1] or, with a spin out of the domain, to
    neither: the three counts add up to the size of the sample, so the
    partition is short exactly of the nodes out of the domain. *)
Theorem partition_counts (s : sample) :
  (List.length (S0_of s) + List.length (S1_of s)
   + List.length (off_domain s) = List.length s)%nat
  /\ (List.length (S0_of s) + List.length (S1_of s) = List.length s
      <-> off_domain s = [])%nat.
Proof.
  assert (H : (List.length (S0_of s) + List.length (S1_of s)
               + List.length (off_domain s) = List.length s)%nat).
  { unfold S0_of, S1_of, off_domain. rewrite !length_map.
    induction s as [|[n v] r IH]; simpl; [reflexivity|].
    destruct (Z.eqb_spec v (-1)) as [->|H1]; simpl.
    - lia.
    - destruct (Z.eqb_spec v 1); simpl; lia. }
  split; [exact H|]. split.
  - intros E. destruct (off_domain s); [reflexivity | simpl in H; lia].
  - intros E. rewrite E in H. simpl in H. lia.
Qed.

Lemma filter_map_values {V W} (f : V -> W) (p : Z * W -> bool) (d : dict V) :
  map fst (filter p (map_values f d))
  = map fst (filter (fun x => p (fst x, f (snd x))) d).
Proof.
  induction d as [|[k v] r IH]; simpl; [reflexivity|].
  destruct (p (k, f v)); simpl; now rewrite IH.
Qed.

(** X18.  Negating every spin of a sample swaps the two sides of the
    partition. *)
Theorem flip_swaps_partition (s : sample) :
  S0_of (flip_spins s) = S1_of s /\ S1_of (flip_spins s) = S0_of s.
Proof.
  unfold S0_of, S1_of, flip_spins. rewrite !filter_map_values. simpl.
  split; f_equal; apply filter_ext; intros [n v]; simpl.
  - destruct (Z.eqb_spec (- v) (-1)), (Z.eqb_spec v 1); try reflexivity; lia.
  - destruct (Z.eqb_spec (- v) 1), (Z.eqb_spec v (-1)); try reflexivity; lia.
Qed.

Lemma repeated_line_harmless_witness :
  load_graph (fun p => if String.eqb p "a" then Some triangle_lines
                       else Some (triangle_lines ++ ["1,1,0"]))
    "b" true
  = Ok triangle_graph.
Proof.
  apply (repeated_line_harmless
           (fun p => if String.eqb p "a" then Some triangle_lines
                     else Some (triangle_lines ++ ["1,1,0"]))
           "a" "b" true triangle_lines "1,1,0" triangle_graph
           1%float 1 0 (mkData 1%float None));
    vm_compute; reflexivity.
Defined.

Lemma loaded_weights_from_file_witness :
  exists line w u v,
    In line repeated_lines
    /\ parse_line true line = Ok (w, u, v)
    /\ same_pair (0, 1) (u, v) = true
    /\ 5%float = w.
Proof.
  apply (loaded_weights_from_file (only_file repeated_lines)
           (graph_file 10 3 2) true repeated_lines
           (loaded true repeated_lines) 0 1 (mkData 5%float None)).
  - vm_compute. reflexivity.
  - vm_compute. reflexivity.
  - vm_compute. left. reflexivity.
Defined.
